(** * optflow.py: job claiming, the flow pipeline and the worker loop

    A shallow embedding of [optflow.py].

    - The shared directory is a finite map from path strings to file
      contents.  The functions of the module ([write_flow], [claim_job],
      [farneback], [deepflow], [run_job]) are written in a monad that
      threads this map and returns a value or raises a Python exception.
    - What the module takes from outside is an [environment]: the
      constants of [sconst], the host name, the rights of the process on
      the files, the external programs and OpenCV.
    - [optflow] is a transition system: the coordinating thread moves one
      loop round at a time, a thread runs its [run_job] in one step, and
      other processes may change the files at any time; an execution is
      driven by a schedule, a list of such events.
    - The race of several claimants for one index is a second transition
      system, in which [claim_job] is split at the exclusive creation of
      the placeholder, the one operation the filesystem makes atomic.
    - [main] lists the frames of the directory with [glob.glob1] and runs
      [optflow] from index 0; the listing of directories and the
      constant [NUM_FRAMES_FOR_TEST] of [sconst] are its parameters.

    Python integers are [Z], strings are [string], file contents are
    lists of bytes, binary32 numbers are [spec_float] values with their
    IEEE-754 encoding. *)

From Stdlib Require Import ZArith List Sorted Ascii String Strings.Byte Floats.SpecFloat.
From stdpp Require Import base option numbers list gmap strings pretty.

Local Open Scope string_scope.
Local Open Scope Z_scope.

(** ** Python strings *)

Module PyStr.

Definition is_slash (c : ascii) : bool := Ascii.eqb c "/".
Definition is_dot (c : ascii) : bool := Ascii.eqb c ".".

(** [s.rfind(c)]: the index of the last occurrence of [c], or [-1]. *)
Fixpoint rfind_from (c : ascii) (s : string) (i : Z) : Z :=
  match s with
  | EmptyString => -1
  | String a r =>
      let j := rfind_from c r (i + 1) in
      if 0 <=? j then j else if Ascii.eqb a c then i else -1
  end.

Definition rfind (c : ascii) (s : string) : Z := rfind_from c s 0.

(** [s[lo:hi]] for [0 <= lo]. *)
Definition slice (s : string) (lo hi : Z) : string :=
  String.substring (Z.to_nat lo) (Z.to_nat (hi - lo)) s.

Fixpoint all_chars (P : ascii -> bool) (s : string) : bool :=
  match s with
  | EmptyString => true
  | String a r => P a && all_chars P r
  end.

(** [os.path.splitext] of [posixpath]: the extension starts at the last
    dot of the last component, unless that component has only leading
    dots before it. *)
Definition splitext (p : string) : string * string :=
  let sepIndex := rfind "/" p in
  let dotIndex := rfind "." p in
  if sepIndex <? dotIndex then
    if all_chars is_dot (slice p (sepIndex + 1) dotIndex)
    then (p, EmptyString)
    else (slice p 0 dotIndex, slice p dotIndex (Z.of_nat (String.length p)))
  else (p, EmptyString).

Fixpoint replicate_char (n : nat) (c : ascii) : string :=
  match n with
  | O => EmptyString
  | S k => String c (replicate_char k c)
  end.

(** The conversion [%d] with an optional [0] flag and a minimal width. *)
Definition format_d (zero : bool) (width : nat) (v : Z) : string :=
  let digits := pretty (Z.abs v) in
  let sign := if v <? 0 then "-" else EmptyString in
  let pad := (width - (String.length sign + String.length digits))%nat in
  if zero then sign +:+ replicate_char pad "0" +:+ digits
  else replicate_char pad " " +:+ sign +:+ digits.

Definition digit_of (c : ascii) : option nat :=
  let n := nat_of_ascii c in
  if ((48 <=? n) && (n <=? 57))%nat then Some (n - 48)%nat else None.

Inductive fmt_state :=
| Lit
| Flags (zero : bool)
| Width (zero : bool) (w : nat).

(** [fmt % v] for one integer argument.  The fragment covers literal
    text, [%%], and the conversions [%d] and [%i] with the [0] flag and
    a width; [None] stands for the [TypeError] or [ValueError] that
    Python raises (no conversion, a second conversion, a truncated
    one), and for the conversions the fragment leaves out. *)
Fixpoint percent_go (st : fmt_state) (arg : option Z) (s : string)
  : option string :=
  let conv zero w c r :=
    if Ascii.eqb c "d" || Ascii.eqb c "i" then
      match arg with
      | Some v => String.append (format_d zero w v) <$> percent_go Lit None r
      | None => None
      end
    else None in
  match s with
  | EmptyString =>
      match st, arg with
      | Lit, None => Some EmptyString
      | _, _ => None
      end
  | String c r =>
      match st with
      | Lit =>
          if Ascii.eqb c "%" then percent_go (Flags false) arg r
          else String c <$> percent_go Lit arg r
      | Flags zero =>
          if Ascii.eqb c "%" then
            if zero then None else String "%" <$> percent_go Lit arg r
          else if Ascii.eqb c "0" then percent_go (Flags true) arg r
          else match digit_of c with
               | Some d => percent_go (Width zero d) arg r
               | None => conv zero O c r
               end
      | Width zero w =>
          match digit_of c with
          | Some d => percent_go (Width zero (10 * w + d)%nat) arg r
          | None => conv zero w c r
          end
      end
  end.

Definition percent (fmt : string) (v : Z) : option string :=
  percent_go Lit (Some v) fmt.

End PyStr.

(** ** pathlib paths *)

Module PyPath.
Import PyStr.

(** A pure POSIX path: whether it is anchored at the root, and its
    components. *)
Record Path := mkPath { anchored : bool; parts : list string }.

Fixpoint split_slash (s : string) : list string :=
  match s with
  | EmptyString => [EmptyString]
  | String a r =>
      if is_slash a then EmptyString :: split_slash r
      else match split_slash r with
           | x :: xs => String a x :: xs
           | [] => [String a EmptyString]
           end
  end.

Definition keep_part (x : string) : bool :=
  negb (String.eqb x EmptyString || String.eqb x ".").

Definition starts_with_slash (s : string) : bool :=
  match s with
  | String a _ => is_slash a
  | EmptyString => false
  end.

(** [Path(s)]: empty and [.] components are dropped. *)
Definition parse (s : string) : Path :=
  mkPath (starts_with_slash s) (List.filter keep_part (split_slash s)).

(** [p / q] for two paths: an anchored right operand replaces the left. *)
Definition join (p q : Path) : Path :=
  if anchored q then q else mkPath (anchored p) (parts p ++ parts q).

(** [p / s] for a path and a string. *)
Definition truediv (p : Path) (s : string) : Path := join p (parse s).

(** [s / p] for a string and a path ([Path.__rtruediv__]). *)
Definition rtruediv (s : string) (p : Path) : Path := join (parse s) p.

Fixpoint join_parts (l : list string) : string :=
  match l with
  | [] => EmptyString
  | [x] => x
  | x :: r => x +:+ "/" +:+ join_parts r
  end.

(** [str(p)]. *)
Definition str (p : Path) : string :=
  match parts p with
  | [] => if anchored p then "/" else "."
  | l => (if anchored p then "/" else EmptyString) +:+ join_parts l
  end.

(** What [str(p / name)] puts before a one-component [name]. *)
Definition dir_prefix (p : Path) : string :=
  match parts p with
  | [] => if anchored p then "/" else EmptyString
  | l => (if anchored p then "/" else EmptyString) +:+ join_parts l +:+ "/"
  end.

Definition no_slash (s : string) : bool :=
  all_chars (fun c => negb (is_slash c)) s.

(** A string that [Path] reads as one component. *)
Definition simple_name (s : string) : bool := no_slash s && keep_part s.

Fixpoint last_char (s : string) : option ascii :=
  match s with
  | EmptyString => None
  | String a EmptyString => Some a
  | String _ r => last_char r
  end.

End PyPath.

Notation "p // s" := (PyPath.truediv p s) (at level 40, left associativity).

(** ** Exceptions, the shared directory and the monad of the module *)

Inductive exn :=
| FileExistsError
| FileNotFoundError
| PermissionError
| TypeError
| cv2_error.

Inductive result (A : Type) :=
| Ok (a : A)
| Raise (e : exn).
Arguments Ok {A} a.
Arguments Raise {A} e.

(** The files of the shared directory and of everything else the module
    touches, by path string. *)
Abbreviation filesystem := (gmap string (list byte)).

(** A computation reads and updates the filesystem and returns or raises;
    the filesystem it leaves behind is kept in both cases. *)
Definition M (A : Type) : Type := filesystem -> result A * filesystem.

Definition ret {A} (a : A) : M A := fun fs => (Ok a, fs).
Definition raise {A} (e : exn) : M A := fun fs => (Raise e, fs).
Definition bind {A B} (m : M A) (k : A -> M B) : M B :=
  fun fs =>
    match m fs with
    | (Ok a, fs') => k a fs'
    | (Raise e, fs') => (Raise e, fs')
    end.

Notation "'do' x <- m ; k" := (bind m (fun x => k))
  (at level 10, x pattern, m at level 100, k at level 200).

(** [try: body except FileExistsError: handler]. *)
Definition except_FileExistsError {A} (body handler : M A) : M A :=
  fun fs =>
    match body fs with
    | (Raise FileExistsError, fs') => handler fs'
    | r => r
    end.

(** A [None] of the formatting fragment is Python's [TypeError]. *)
Definition format_or_raise (o : option string) : M string :=
  match o with
  | Some s => ret s
  | None => raise TypeError
  end.

(** ** numpy: scalars and arrays written with [tofile] *)

Module Numpy.

Inductive byteorder := LittleEndian | BigEndian.

Definition byte_of_Z (z : Z) : byte :=
  match Byte.of_N (Z.to_N (Z.land z 255)) with
  | Some b => b
  | None => "000"%byte
  end.

(** The four bytes of a 32-bit word in the given byte order. *)
Definition word32_bytes (bo : byteorder) (w : Z) : list byte :=
  let le := [byte_of_Z w; byte_of_Z (Z.shiftr w 8);
             byte_of_Z (Z.shiftr w 16); byte_of_Z (Z.shiftr w 24)] in
  match bo with
  | LittleEndian => le
  | BigEndian => rev le
  end.

(** [np.array(n, dtype=np.uint32)]: the integer modulo 2^32. *)
Definition uint32 (n : Z) : Z := n mod 2 ^ 32.

(** [np.array(x, dtype=np.float32)] for the dyadic number [m * 2^e]:
    rounding to binary32 (24 bits of precision, emax 128). *)
Definition float32 (m e : Z) : spec_float := binary_normalize 24 128 m e false.

(** The IEEE-754 binary32 interchange encoding of a value. *)
Definition float32_bits (x : spec_float) : Z :=
  match x with
  | S754_zero s => if s then 2 ^ 31 else 0
  | S754_infinity s => (if s then 2 ^ 31 else 0) + 255 * 2 ^ 23
  | S754_nan => 255 * 2 ^ 23 + 2 ^ 22
  | S754_finite s m e =>
      (if s then 2 ^ 31 else 0) +
      (if 2 ^ 23 <=? Z.pos m
       then (e + 150) * 2 ^ 23 + (Z.pos m - 2 ^ 23)
       else Z.pos m)
  end.

(** An array of shape [(dim0, dim1, dim2)] with binary32 items. *)
Record ndarray := mk_ndarray {
  dim0 : nat;
  dim1 : nat;
  dim2 : nat;
  item : nat -> nat -> nat -> spec_float
}.

(** The items in C order, as [tofile] writes them. *)
Definition ravel (a : ndarray) : list spec_float :=
  flat_map (fun y =>
    flat_map (fun x =>
      List.map (fun c => item a y x c) (seq 0 (dim2 a)))
      (seq 0 (dim1 a)))
    (seq 0 (dim0 a)).

Definition float32_tobytes (bo : byteorder) (l : list spec_float) : list byte :=
  flat_map (fun x => word32_bytes bo (float32_bits x)) l.

End Numpy.

(** An image as [cv2.imread] returns it. *)
Record image := mk_image {
  im_rows : nat;
  im_cols : nat;
  im_channels : nat;
  im_data : list byte
}.

(** What a finished child process leaves: the filesystem, its standard
    output and its exit status. *)
Record completed := mk_completed {
  cp_fs : filesystem;
  cp_stdout : list byte;
  cp_returncode : Z
}.

(** ** The installation

    What the module takes from outside: the constants of [sconst], the
    host and the location of the module, the machine and the operating
    system, and OpenCV. *)

Class environment := {
  (** The constants of [sconst]. *)
  FRAME_NAME : string;
  MAX_OPTFLOW_JOBS : Z;
  DEEPMATCHING : string;
  DEEPFLOW2 : string;
  CONSISTENCY_CHECK : string;
  (** [platform.node()] and [pathlib.Path(__file__).parent.absolute()]. *)
  platform_node : string;
  module_root : PyPath.Path;
  (** The byte order of the machine, the paths at which this process may
      not create, write or remove a file, and what running an executable
      to its end does ([None]: it could not be started). *)
  native : Numpy.byteorder;
  denied : string -> bool;
  exec : string -> list string -> list byte -> filesystem -> option completed;
  (** Decoding a frame, the grayscale conversion and the dense flow
      estimator of OpenCV ([None]: OpenCV rejects the input). *)
  imdecode : list byte -> option image;
  cvtColor_BGR2GRAY : image -> option image;
  calcOpticalFlowFarneback : image -> image -> option Numpy.ndarray
}.

(** ** The module *)

Section Optflow.
Import PyStr PyPath Numpy.
Context {E : environment}.

(** *** Files *)

(** [open(path, 'x')]: creates the file, and fails if it exists.  As with
    [O_CREAT | O_EXCL], a file that exists is reported before the right
    to create one is looked at. *)
Definition open_x (path : string) : M unit :=
  fun fs =>
    match fs !! path with
    | Some _ => (Raise FileExistsError, fs)
    | None =>
        if denied path then (Raise PermissionError, fs)
        else (Ok tt, <[path := []]> fs)
    end.

(** [open(path, 'wb')]: creates the file or truncates it. *)
Definition open_wb (path : string) : M unit :=
  fun fs =>
    if denied path then (Raise PermissionError, fs)
    else (Ok tt, <[path := []]> fs).

(** Writing to an open file appends to it. *)
Definition write (path : string) (data : list byte) : M unit :=
  fun fs => (Ok tt, alter (fun old => (old ++ data)%list) path fs).

(** [os.remove(path)]. *)
Definition os_remove (path : string) : M unit :=
  fun fs =>
    match fs !! path with
    | None => (Raise FileNotFoundError, fs)
    | Some _ =>
        if denied path then (Raise PermissionError, fs)
        else (Ok tt, delete path fs)
    end.

(** [subprocess.Popen] and [subprocess.run] without [check]: the child
    runs to its end and its exit status is not looked at. *)
Definition subprocess_run (prog : string) (args : list string)
    (stdin : list byte) : M (list byte) :=
  fun fs =>
    match exec prog args stdin fs with
    | Some cp => (Ok (cp_stdout cp), cp_fs cp)
    | None => (Raise FileNotFoundError, fs)
    end.

(** [cv2.imread]: [None] for a file that is missing or does not decode. *)
Definition imread (path : string) : M (option image) :=
  fun fs => (Ok (fs !! path ≫= imdecode), fs).

(** A rejection by OpenCV is a [cv2.error]. *)
Definition cv2_or_raise {A} (o : option A) : M A :=
  match o with
  | Some a => ret a
  | None => raise cv2_error
  end.

(** [cv2.cvtColor(img, cv2.COLOR_BGR2GRAY)]; the [None] of a failed
    [imread] is rejected. *)
Definition cvtColor (img : option image) : M image :=
  cv2_or_raise (img ≫= cvtColor_BGR2GRAY).

(** *** write_flow *)

(** The magic number 202021.25 is 808085 * 2^-2. *)
Definition flo_magic : spec_float := float32 808085 (-2).

Definition write_flow (fname : string) (flow : ndarray) : M unit :=
  do _ <- open_wb fname;
  do _ <- write fname (float32_tobytes native [flo_magic]);
  let height := Z.of_nat (dim0 flow) in
  let width := Z.of_nat (dim1 flow) in
  do _ <- write fname (word32_bytes native (uint32 width));
  do _ <- write fname (word32_bytes native (uint32 height));
  write fname (float32_tobytes native (ravel flow)).

(** The bytes of a flow file. *)
Definition flo_bytes (flow : ndarray) : list byte :=
  (float32_tobytes native [flo_magic] ++
   word32_bytes native (uint32 (Z.of_nat (dim1 flow))) ++
   word32_bytes native (uint32 (Z.of_nat (dim0 flow))) ++
   float32_tobytes native (ravel flow))%list.

(** *** claim_job *)

Definition placeholder_text : list byte :=
  list_byte_of_string ("PLACEHOLDER CREATED BY " +:+ platform_node).

(** The pair [(None, None)] is [None]; a pair of two names is [Some]. *)
Definition claim_job (idx : Z) (frames : list string) (dst : Path)
  : M (option (string * string)) :=
  do stem <- format_or_raise (percent (fst (splitext FRAME_NAME)) idx);
  let placeholder := str (dst // (stem +:+ ".plc")) in
  except_FileExistsError
    (do _ <- open_x placeholder;
     do _ <- write placeholder placeholder_text;
     do s <- format_or_raise (percent FRAME_NAME idx);
     let start_name := str (dst // s) in
     do e <- format_or_raise (percent FRAME_NAME (idx + 1));
     let end_name := str (dst // e) in
     ret (Some (start_name, end_name)))
    (ret None).

(** The placeholder and the frame of an index, when the name formats. *)
Definition placeholder_path (idx : Z) (dst : Path) : option string :=
  (fun stem => str (dst // (stem +:+ ".plc")))
    <$> percent (fst (splitext FRAME_NAME)) idx.

Definition frame_path (idx : Z) (dst : Path) : option string :=
  (fun s => str (dst // s)) <$> percent FRAME_NAME idx.

(** *** farneback, deepflow and run_job *)

Definition farneback (start_name end_name forward_name backward_name : string)
  : M unit :=
  do img <- imread start_name;
  do start <- cvtColor img;
  do img' <- imread end_name;
  do end_ <- cvtColor img';
  do forward <- cv2_or_raise (calcOpticalFlowFarneback start end_);
  do backward <- cv2_or_raise (calcOpticalFlowFarneback end_ start);
  do _ <- write_flow forward_name forward;
  write_flow backward_name backward.

Definition tool (name : string) : string :=
  str (rtruediv "." module_root // name).

(** The matcher and the flow program it feeds through a pipe are run one
    after the other: the output of the first is the input of the second. *)
Definition deepflow (start_name end_name forward_name backward_name : string)
  : M unit :=
  do forward_dm <- subprocess_run (tool DEEPMATCHING)
      [start_name; end_name; "-nt"; "0"; "-downscale"; "2"] [];
  do _ <- subprocess_run (tool DEEPFLOW2)
      [start_name; end_name; forward_name; "-match"] forward_dm;
  do backward_dm <- subprocess_run (tool DEEPMATCHING)
      [end_name; start_name; "-nt"; "0"; "-downscale"; "2"] [];
  do _ <- subprocess_run (tool DEEPFLOW2)
      [end_name; start_name; backward_name; "-match"] backward_dm;
  ret tt.

(** The three file names of a job: [str(dst / '..._{}_{}.flo'.format(..))]. *)
Definition forward_path (idx : Z) (dst : Path) : string :=
  str (dst // ("forward_" +:+ pretty idx +:+ "_" +:+ pretty (idx + 1) +:+ ".flo")).
Definition backward_path (idx : Z) (dst : Path) : string :=
  str (dst // ("backward_" +:+ pretty (idx + 1) +:+ "_" +:+ pretty idx +:+ ".flo")).
Definition reliable_path (idx : Z) (dst : Path) : string :=
  str (dst // ("reliable_" +:+ pretty (idx + 1) +:+ "_" +:+ pretty idx +:+ ".pgm")).

Definition run_job (idx : Z) (start_name end_name : string) (dst : Path)
    (fast : bool) : M unit :=
  let forward_name := forward_path idx dst in
  let backward_name := backward_path idx dst in
  let reliable_name := reliable_path idx dst in
  do _ <- (if fast
           then farneback start_name end_name forward_name backward_name
           else deepflow start_name end_name forward_name backward_name);
  do _ <- subprocess_run (tool CONSISTENCY_CHECK)
      [backward_name; forward_name; reliable_name; end_name] [];
  os_remove forward_name.

(** The process [prog args], started on the files [fs] with the input
    [stdin], exits with status 0 and leaves the files [fs'] and the
    output [stdout]. *)
Definition exits_ok (prog : string) (args : list string) (stdin : list byte)
    (fs fs' : filesystem) (stdout : list byte) : Prop :=
  exec prog args stdin fs = Some (mk_completed fs' stdout 0).

(** The external processes that [run_job] starts from the files [fs]
    succeed: each exits with status 0, the matcher having written no
    file, the flow program and the consistency check having written
    their output file, the third argument, and no other.  In fast mode
    the consistency check is the only process, and it starts on the
    files that [farneback] leaves. *)
Definition processes_succeed (idx : Z) (start_name end_name : string)
    (dst : Path) (fast : bool) (fs : filesystem) : Prop :=
  let forward_name := forward_path idx dst in
  let backward_name := backward_path idx dst in
  let reliable_name := reliable_path idx dst in
  let check := [backward_name; forward_name; reliable_name; end_name] in
  if fast then
    let fs1 :=
      (farneback start_name end_name forward_name backward_name fs).2 in
    exists data out,
      exits_ok (tool CONSISTENCY_CHECK) check [] fs1
        (<[reliable_name := data]> fs1) out
  else
    exists m1 d1 o1 m2 d2 o2 d3 o3,
      let fs1 := <[forward_name := d1]> fs in
      let fs2 := <[backward_name := d2]> fs1 in
      exits_ok (tool DEEPMATCHING)
        [start_name; end_name; "-nt"; "0"; "-downscale"; "2"] [] fs fs m1 /\
      exits_ok (tool DEEPFLOW2)
        [start_name; end_name; forward_name; "-match"] m1 fs fs1 o1 /\
      exits_ok (tool DEEPMATCHING)
        [end_name; start_name; "-nt"; "0"; "-downscale"; "2"] [] fs1 fs1 m2 /\
      exits_ok (tool DEEPFLOW2)
        [end_name; start_name; backward_name; "-match"] m2 fs1 fs2 o2 /\
      exits_ok (tool CONSISTENCY_CHECK) check [] fs2
        (<[reliable_name := d3]> fs2) o3.

(** *** optflow: the coordinating loop and its threads *)

(** A thread created for [run_job]: its arguments and whether it is
    still alive. *)
Inductive thread_state :=
| Alive
| Finished (r : result unit).

Record thread := mk_thread {
  t_idx : Z;
  t_start : string;
  t_end : string;
  t_state : thread_state
}.

(** Where the coordinating thread is: before the body of the [for] loop
    for [idx] of [range(_, stop)], in the final loop of [join]s, after
    its return, or stopped by an exception. *)
Inductive coordinator :=
| AtLoop (idx stop : Z)
| AtJoin (rest : list nat)
| Returned
| Raised (e : exn).

(** The state of one worker process: the files, the place of the
    coordinating thread, its list [running] (threads by identifier), all
    threads created so far, and the indices [claim_job] was called with,
    in order. *)
Record world := mk_world {
  w_fs : filesystem;
  w_pc : coordinator;
  w_running : list nat;
  w_threads : list thread;
  w_attempts : list Z
}.

Definition state_alive (s : thread_state) : bool :=
  match s with Alive => true | Finished _ => false end.

(** [thread.isAlive()], the liveness test of [threading.Thread], for the
    thread with identifier [t]. *)
Definition isAlive (ths : list thread) (t : nat) : bool :=
  match ths !! t with
  | Some th => state_alive (t_state th)
  | None => false
  end.

(** The number of threads that are started and not finished. *)
Definition active (w : world) : nat :=
  length (List.filter (isAlive (w_threads w))
            (seq 0 (length (w_threads w)))).

(** The start of [optflow]: [running = []] and the loop at [start] of
    [range(start, start + len(frames) - 1)]. *)
Definition optflow_init (start : Z) (frames : list string) (fs : filesystem)
  : world :=
  mk_world fs (AtLoop start (start + Z.of_nat (length frames) - 1)) [] [] [].

(** The truth value of a string, for [if start_name:]. *)
Definition truthy (s : string) : bool := negb (String.eqb s EmptyString).

(** One step of the coordinating thread of [optflow start frames dst fast]:
    the end of the range, one round of the waiting loop, one claim with
    the start of its thread, or one [join]. *)
Definition coordinator_step (frames : list string) (dst : Path) (w : world)
  : world :=
  match w_pc w with
  | AtLoop idx stop =>
      if stop <=? idx then
        mk_world (w_fs w) (AtJoin (w_running w)) (w_running w) (w_threads w)
          (w_attempts w)
      else if MAX_OPTFLOW_JOBS <=? Z.of_nat (length (w_running w)) then
        mk_world (w_fs w) (AtLoop idx stop)
          (List.filter (isAlive (w_threads w)) (w_running w))
          (w_threads w) (w_attempts w)
      else
        let attempts := (w_attempts w ++ [idx + 1])%list in
        match claim_job (idx + 1) frames dst (w_fs w) with
        | (Raise e, fs') =>
            mk_world fs' (Raised e) (w_running w) (w_threads w) attempts
        | (Ok (Some (start_name, end_name)), fs') =>
            if truthy start_name then
              mk_world fs' (AtLoop (idx + 1) stop)
                (w_running w ++ [length (w_threads w)])%list
                (w_threads w ++ [mk_thread (idx + 1) start_name end_name Alive])%list
                attempts
            else
              mk_world fs' (AtLoop (idx + 1) stop) (w_running w) (w_threads w)
                attempts
        | (Ok None, fs') =>
            mk_world fs' (AtLoop (idx + 1) stop) (w_running w) (w_threads w)
              attempts
        end
  | AtJoin [] =>
      mk_world (w_fs w) Returned (w_running w) (w_threads w) (w_attempts w)
  | AtJoin (t :: rest) =>
      if isAlive (w_threads w) t then w
      else mk_world (w_fs w) (AtJoin rest) (w_running w) (w_threads w)
             (w_attempts w)
  | Returned => w
  | Raised _ => w
  end.

(** Thread [t] runs [run_job] to its end; an exception ends the thread
    and nothing else. *)
Definition thread_step (dst : Path) (fast : bool) (t : nat) (w : world)
  : world :=
  match w_threads w !! t with
  | Some (mk_thread idx start_name end_name Alive) =>
      let '(r, fs') := run_job idx start_name end_name dst fast (w_fs w) in
      mk_world fs' (w_pc w) (w_running w)
        (<[t := mk_thread idx start_name end_name (Finished r)]> (w_threads w))
        (w_attempts w)
  | _ => w
  end.

(** What can happen next: the coordinating thread moves, a thread runs
    its job, or another process changes the files. *)
Inductive event :=
| Coordinator
| Thread (t : nat)
| Elsewhere (f : filesystem -> filesystem).

Definition step (frames : list string) (dst : Path) (fast : bool)
    (w : world) (e : event) : world :=
  match e with
  | Coordinator => coordinator_step frames dst w
  | Thread t => thread_step dst fast t w
  | Elsewhere f =>
      mk_world (f (w_fs w)) (w_pc w) (w_running w) (w_threads w) (w_attempts w)
  end.

(** [optflow(start, frames, dst, fast)] run from the files [fs] under the
    schedule [sched]. *)
Definition optflow (start : Z) (frames : list string) (dst : Path)
    (fast : bool) (sched : list event) (fs : filesystem) : world :=
  fold_left (step frames dst fast) sched (optflow_init start frames fs).

(** The indices [start+1, ..., start+n-1]. *)
Definition claim_indices (start : Z) (n : nat) : list Z :=
  List.map (fun k => start + 1 + Z.of_nat k) (seq 0 (n - 1)).

(** *** Invariants of the loop *)

(** The indices attempted when the loop is at [j]. *)
Definition upto (start j : Z) : list Z :=
  List.map (fun k => start + 1 + Z.of_nat k) (seq 0 (Z.to_nat (j - start))).

(** The threads of [running] are distinct and exist, every thread
    alive is in [running], and the final loop of [join]s leaves none
    alive behind. *)
Definition pool_inv (w : world) : Prop :=
  List.NoDup (w_running w) /\
  (forall t, isAlive (w_threads w) t = true -> In t (w_running w)) /\
  (forall t, In t (w_running w) -> (t < length (w_threads w))%nat) /\
  match w_pc w with
  | AtJoin rest => forall t, isAlive (w_threads w) t = true -> In t rest
  | Returned => forall t, isAlive (w_threads w) t = false
  | _ => True
  end.

(** [running] never holds more than the cap. *)
Definition cap_inv (w : world) : Prop :=
  Z.of_nat (length (w_running w)) <= MAX_OPTFLOW_JOBS.

(** The attempts so far, by the place of the coordinating thread. *)
Definition trace_inv (start : Z) (n : nat) (w : world) : Prop :=
  let stop := start + Z.of_nat n - 1 in
  match w_pc w with
  | AtLoop idx stop' =>
      stop' = stop /\ start <= idx /\ (idx <= stop \/ idx = start) /\
      w_attempts w = upto start idx
  | AtJoin _ | Returned => w_attempts w = claim_indices start n
  | Raised _ => exists j, start < j <= stop /\ w_attempts w = upto start j
  end.

(** No thread is alive. *)
Definition quiet (w : world) : Prop :=
  forall t, isAlive (w_threads w) t = false.

(** The coordinating thread has not been stopped by an exception. *)
Definition unraised (w : world) : Prop := forall e, w_pc w <> Raised e.

(** An execution without jobs, after [moves] coordinator steps. *)
Definition idle_at (start : Z) (w : world) : nat -> Prop :=
  fun moves =>
    w_attempts w = [] /\ w_threads w = [] /\ w_running w = [] /\
    match moves with
    | O => exists stop, stop <= start /\ w_pc w = AtLoop start stop
    | S O => w_pc w = AtJoin []
    | _ => w_pc w = Returned
    end.

Fixpoint coordinator_moves (sched : list event) : nat :=
  match sched with
  | [] => O
  | Coordinator :: r => S (coordinator_moves r)
  | _ :: r => coordinator_moves r
  end.

(** An index whose claim cannot raise: its names format and its
    placeholder may be created. *)
Definition claimable (idx : Z) (dst : Path) : Prop :=
  exists p, placeholder_path idx dst = Some p /\ denied p = false /\
            is_Some (frame_path idx dst) /\
            is_Some (frame_path (idx + 1) dst).

(** The effect of the other processes alone. *)
Fixpoint elsewhere_only (sched : list event) (fs : filesystem) : filesystem :=
  match sched with
  | [] => fs
  | Elsewhere f :: r => elsewhere_only r (f fs)
  | _ :: r => elsewhere_only r fs
  end.

End Optflow.

(** The same installation with every exit status replaced by [f] of it. *)
Definition with_status (f : Z -> Z) (E : environment) : environment :=
  {| FRAME_NAME := FRAME_NAME;
     MAX_OPTFLOW_JOBS := MAX_OPTFLOW_JOBS;
     DEEPMATCHING := DEEPMATCHING;
     DEEPFLOW2 := DEEPFLOW2;
     CONSISTENCY_CHECK := CONSISTENCY_CHECK;
     platform_node := platform_node;
     module_root := module_root;
     native := native;
     denied := denied;
     exec := fun prog args stdin fs =>
       (fun cp => mk_completed (cp_fs cp) (cp_stdout cp) (f (cp_returncode cp)))
         <$> exec prog args stdin fs;
     imdecode := imdecode;
     cvtColor_BGR2GRAY := cvtColor_BGR2GRAY;
     calcOpticalFlowFarneback := calcOpticalFlowFarneback |}.

(** ** Claimants racing for one index

    [claim_job] in two atomic steps, the exclusive creation of the
    placeholder and the rest, for any number of claimants of the same
    index that share the directory; each runs in an installation of its
    own (its host, its rights on the directory) and has its own [frames]
    argument. *)

Module Race.
Import PyStr PyPath.

Inductive claim_pc :=
| BeforeOpen
| Created (placeholder : string)
| Done (r : result (option (string * string))).

Record claimant := mk_claimant {
  c_env : environment;
  c_frames : list string;
  c_pc : claim_pc
}.

Definition at_pc (c : claimant) (pc : claim_pc) : claimant :=
  mk_claimant (c_env c) (c_frames c) pc.

Definition claimant_step (idx : Z) (dst : Path) (c : claimant)
    (fs : filesystem) : claimant * filesystem :=
  let E := c_env c in
  match c_pc c with
  | BeforeOpen =>
      match format_or_raise (percent (fst (splitext FRAME_NAME)) idx) fs with
      | (Raise e, fs') => (at_pc c (Done (Raise e)), fs')
      | (Ok stem, fs') =>
          let placeholder := str (dst // (stem +:+ ".plc")) in
          match open_x placeholder fs' with
          | (Ok _, fs'') => (at_pc c (Created placeholder), fs'')
          | (Raise FileExistsError, fs'') => (at_pc c (Done (Ok None)), fs'')
          | (Raise e, fs'') => (at_pc c (Done (Raise e)), fs'')
          end
      end
  | Created placeholder =>
      let '(r, fs') :=
        except_FileExistsError
          (do _ <- write placeholder placeholder_text;
           do s <- format_or_raise (percent FRAME_NAME idx);
           let start_name := str (dst // s) in
           do e <- format_or_raise (percent FRAME_NAME (idx + 1));
           let end_name := str (dst // e) in
           ret (Some (start_name, end_name)))
          (ret None) fs in
      (at_pc c (Done r), fs')
  | Done _ => (c, fs)
  end.

(** The result of the second step of a claimant. *)
Definition claimed (idx : Z) (dst : Path) (E : environment)
  : result (option (string * string)) :=
  match frame_path idx dst, frame_path (idx + 1) dst with
  | Some s, Some e => Ok (Some (s, e))
  | _, _ => Raise TypeError
  end.

(** The claimant at position [i] takes its next step. *)
Definition race_step (idx : Z) (dst : Path)
    (w : filesystem * list claimant) (i : nat) : filesystem * list claimant :=
  match w.2 !! i with
  | Some c =>
      let '(c', fs') := claimant_step idx dst c w.1 in
      (fs', <[i := c']> w.2)
  | None => w
  end.

Definition race (idx : Z) (dst : Path)
    (sched : list nat) (fs : filesystem) (cs : list claimant)
  : filesystem * list claimant :=
  fold_left (race_step idx dst) sched (fs, cs).

Definition succeeded (c : claimant) : bool :=
  match c_pc c with
  | Done (Ok (Some _)) => true
  | _ => false
  end.

Definition no_job (c : claimant) : bool :=
  match c_pc c with
  | Done (Ok None) => true
  | _ => false
  end.

Definition finished (c : claimant) : bool :=
  match c_pc c with
  | Done _ => true
  | _ => false
  end.

Definition fresh (c : claimant) : bool :=
  match c_pc c with
  | BeforeOpen => true
  | _ => false
  end.

(** A claimant that has created the placeholder. *)
Definition holder (c : claimant) : bool :=
  match c_pc c with
  | Created _ => true
  | Done (Ok (Some _)) => true
  | _ => false
  end.

(** All claimants derive the placeholder [P]; a holder finds it on
    disk; there is one holder at most. *)
Definition race_inv (idx : Z) (dst : Path) (P : option string)
    (w : filesystem * list claimant) : Prop :=
  (forall i c, w.2 !! i = Some c ->
     placeholder_path (E := c_env c) idx dst = P) /\
  (forall i c, w.2 !! i = Some c -> holder c = true ->
     exists p, P = Some p /\ is_Some (w.1 !! p) /\
               forall q, c_pc c = Created q -> q = p) /\
  (forall i j ci cj, w.2 !! i = Some ci -> w.2 !! j = Some cj ->
     holder ci = true -> holder cj = true -> i = j).

(** No claim can raise, and a finished claimant has a result. *)
Definition race_live (idx : Z) (dst : Path)
    (w : filesystem * list claimant) : Prop :=
  (forall i c, w.2 !! i = Some c -> claimable (E := c_env c) idx dst) /\
  (forall i c, w.2 !! i = Some c -> finished c = true ->
     succeeded c = true \/ no_job c = true).

(** Nobody has moved and the placeholder [p] is absent, or somebody
    holds it. *)
Definition race_won (p : string) (w : filesystem * list claimant) : Prop :=
  ((forall i c, w.2 !! i = Some c -> fresh c = true) /\ w.1 !! p = None) \/
  (exists i c, w.2 !! i = Some c /\ holder c = true).

End Race.

(** ** A concrete installation, for the examples *)

Module Demo.
Import PyStr PyPath Numpy.

Definition dst : Path := parse "/shared/video".
Definition permissive (_ : string) : bool := false.
Definition readonly (_ : string) : bool := true.

(** Every frame that is not empty decodes to one pixel. *)
Definition decode_any (data : list byte) : option image :=
  match data with
  | [] => None
  | _ => Some (mk_image 1 1 3 data)
  end.
Definition gray (i : image) : option image :=
  Some (mk_image (im_rows i) (im_cols i) 1 (im_data i)).
Definition zero_flow (a b : image) : option ndarray :=
  Some (mk_ndarray (im_rows a) (im_cols a) 2 (fun _ _ _ => S754_zero false)).

(** External programs that exit with status 1 and write nothing. *)
Definition failing_exec (prog : string) (args : list string)
    (stdin : list byte) (fs : filesystem) : option completed :=
  Some (mk_completed fs [] 1).

(** External programs that exit with status 0; the flow program and the
    consistency check write their output file, the third argument. *)
Definition working_exec (prog : string) (args : list string)
    (stdin : list byte) (fs : filesystem) : option completed :=
  if String.eqb prog "/opt/optflow/deepmatching-static"
  then Some (mk_completed fs ["120"%byte] 0)
  else match args !! 2%nat with
       | Some out => Some (mk_completed (<[out := ["001"%byte]]> fs) [] 0)
       | None => Some (mk_completed fs [] 2)
       end.

Definition install (node : string) (deny : string -> bool)
    (ex : string -> list string -> list byte -> filesystem -> option completed)
  : environment :=
  {| FRAME_NAME := "frame_%05d.ppm";
     MAX_OPTFLOW_JOBS := 2;
     DEEPMATCHING := "deepmatching-static";
     DEEPFLOW2 := "deepflow2-static";
     CONSISTENCY_CHECK := "consistencyChecker/consistencyChecker";
     platform_node := node;
     module_root := parse "/opt/optflow";
     native := LittleEndian;
     denied := deny;
     exec := ex;
     imdecode := decode_any;
     cvtColor_BGR2GRAY := gray;
     calcOpticalFlowFarneback := zero_flow |}.

(** Two hosts with working tools, one with failing tools, and one that
    may not write. *)
Definition node0 : environment := install "node0" permissive working_exec.
Definition node1 : environment := install "node1" permissive working_exec.
Definition broken : environment := install "node0" permissive failing_exec.
Definition guest : environment := install "guest" readonly working_exec.

Definition frame : list byte := ["080"%byte; "054"%byte].

(** A directory with the frames 1 and 2. *)
Definition two_frames : filesystem :=
  <["/shared/video/frame_00001.ppm" := frame]>
    (<["/shared/video/frame_00002.ppm" := frame]> ∅).

(** A directory with frame 1 alone. *)
Definition one_frame : filesystem :=
  <["/shared/video/frame_00001.ppm" := frame]> ∅.

Definition flow_1x2 : ndarray :=
  mk_ndarray 1 2 2 (fun y x c => float32 (Z.of_nat (1 + 2 * x + c)) 0).

(** A directory with a forward flow file left from before. *)
Definition stale_flow : filesystem :=
  <["/shared/video/forward_1_2.flo" := frame]> two_frames.

(** Inputs of the examples. *)
Definition claimed_1 : filesystem :=
  <["/shared/video/frame_00001.plc" := placeholder_text (E := node1)]> two_frames.

Definition three : list string :=
  ["frame_00001.ppm"; "frame_00002.ppm"; "frame_00003.ppm"].

Definition some_run : list event :=
  [Coordinator; Coordinator; Thread 0%nat; Coordinator; Coordinator;
   Thread 1%nat; Coordinator; Coordinator].

Definition frame_1 : string := "/shared/video/frame_00001.ppm".
Definition frame_2 : string := "/shared/video/frame_00002.ppm".
Definition plc_1 : string := "/shared/video/frame_00001.plc".

Definition racers : list Race.claimant :=
  [Race.mk_claimant node0 [] Race.BeforeOpen;
   Race.mk_claimant node1 three Race.BeforeOpen].

(** A binary PPM image of one black pixel. *)
Definition ppm_1x1 : list byte :=
  ["P"; "6"; "010"; "1"; " "; "1"; "010"; "2"; "5"; "5"; "010";
   "000"; "000"; "000"]%byte.

(** A directory with the frames 1 and 2 as such images. *)
Definition ppm_frames : filesystem :=
  <[frame_1 := ppm_1x1]> (<[frame_2 := ppm_1x1]> ∅).

End Demo.

(** ** What the tools are for

    The three programs are outside the module; these are the contracts
    under which the default job produces its files. *)

Section Contracts.
Import PyStr PyPath Numpy.
Context {E : environment}.

(** The matcher writes no file. *)
Definition matcher_reads_only : Prop :=
  forall args stdin (fs : filesystem),
    exists out rc,
      exec (tool DEEPMATCHING) args stdin fs = Some (mk_completed fs out rc).

(** The flow program writes its output file, the third argument, and no
    other. *)
Definition flow_writes_output : Prop :=
  forall a b out stdin (fs : filesystem),
    exists data o rc,
      exec (tool DEEPFLOW2) [a; b; out; "-match"] stdin fs
      = Some (mk_completed (<[out := data]> fs) o rc).

(** The consistency check writes the reliability map, the third
    argument, and no other file. *)
Definition check_writes_output : Prop :=
  forall b f r e (fs : filesystem),
    exists data o rc,
      exec (tool CONSISTENCY_CHECK) [b; f; r; e] [] fs
      = Some (mk_completed (<[r := data]> fs) o rc).
End Contracts.

(** ** More invariants of the loop *)

Section LoopDefs.
Import PyStr PyPath Numpy.
Context {E : environment}.

(** Every thread was created for an attempted index, with the frame
    names of that index, in the order of the attempts. *)
Definition threads_inv (dst : Path) (w : world) : Prop :=
  List.map t_idx (w_threads w) `sublist_of` w_attempts w /\
  forall t th, w_threads w !! t = Some th ->
    frame_path (t_idx th) dst = Some (t_start th) /\
    frame_path (t_idx th + 1) dst = Some (t_end th).

(** A schedule in which no other process changes the files. *)
Definition undisturbed (sched : list event) : bool :=
  forallb (fun e => match e with Elsewhere _ => false | _ => true end) sched.

(** Every index of the range is claimed already. *)
Definition all_claimed (start : Z) (n : nat) (dst : Path) (fs : filesystem)
  : Prop :=
  forall i, start < i <= start + Z.of_nat n - 1 ->
    exists p, placeholder_path i dst = Some p /\ is_Some (fs !! p).

(** Where the coordinating thread is after [moves] steps when no claim
    succeeds and nothing is running. *)
Definition skipping_at (start : Z) (n : nat) (fs : filesystem) (w : world)
    (moves : nat) : Prop :=
  w_fs w = fs /\ w_threads w = [] /\ w_running w = [] /\
  w_pc w =
    if (moves <=? n - 1)%nat
    then AtLoop (start + Z.of_nat moves) (start + Z.of_nat n - 1)
    else if (moves =? n - 1 + 1)%nat then AtJoin [] else Returned.
End LoopDefs.

(** ** The text of the placeholder in a race *)

Module RaceDefs.
Import PyStr PyPath Race.
(** The placeholder is empty while its creator has not written, and
    holds the text of the claimant that has succeeded. *)
Definition race_text (p : string) (w : filesystem * list claimant) : Prop :=
  forall i c, w.2 !! i = Some c ->
    (forall q, c_pc c = Created q -> w.1 !! p = Some []) /\
    (succeeded c = true ->
     w.1 !! p = Some (placeholder_text (E := c_env c))).
End RaceDefs.

(** ** The names of the output files *)

Module NameDefs.
Import PyStr.
Definition is_underscore (c : ascii) : bool := Ascii.eqb c "_".
Definition no_underscore (s : string) : bool :=
  all_chars (fun c => negb (is_underscore c)) s.
End NameDefs.

(** ** Reading a flow file back

    The inverse of [word32_bytes] and the values of the binary32 format,
    to state that the encoding of [write_flow] loses nothing. *)

Module NumpyDefs.
Import Numpy.
(** The unsigned value of a byte, and of four bytes in a byte order. *)
Definition byte_value (b : byte) : Z := Z.of_N (Byte.to_N b).

Definition word32_value (bo : byteorder) (l : list byte) : option Z :=
  match (match bo with LittleEndian => l | BigEndian => rev l end) with
  | [b0; b1; b2; b3] =>
      Some (byte_value b0 + 2 ^ 8 * byte_value b1 + 2 ^ 16 * byte_value b2
            + 2 ^ 24 * byte_value b3)
  | _ => None
  end.

(** A value of the binary32 format. *)
Definition binary32 (x : spec_float) : bool := valid_binary 24 128 x.

(** An array whose items are binary32 values. *)
Definition binary32_items (a : ndarray) : Prop :=
  forall y x c, (y < dim0 a)%nat -> (x < dim1 a)%nat -> (c < dim2 a)%nat ->
    binary32 (item a y x c) = true.
End NumpyDefs.

(** ** The command line

    [main] lists the frames of the directory with [glob.glob1] and hands
    them to [optflow]. *)

Module Glob.

(** [fnmatch.fnmatchcase(name, pat)] for the patterns made of literal
    characters, [*] and [?]; bracket expressions are outside the
    fragment. *)
Fixpoint fnmatchcase (name pat : string) {struct pat} : bool :=
  match pat with
  | EmptyString => String.eqb name EmptyString
  | String c pat' =>
      if Ascii.eqb c "*" then
        (fix star (s : string) : bool :=
           fnmatchcase s pat' ||
           match s with
           | EmptyString => false
           | String _ r => star r
           end) name
      else
        match name with
        | EmptyString => false
        | String d r => (Ascii.eqb c "?" || Ascii.eqb c d) && fnmatchcase r pat'
        end
  end.

(** [fnmatch.filter(names, pat)] on POSIX, where [normcase] changes
    nothing. *)
Definition fnmatch_filter (names : list string) (pat : string) : list string :=
  List.filter (fun name => fnmatchcase name pat) names.

(** [glob._ishidden]: the first character is a dot.  The names of a
    listing are never empty. *)
Definition _ishidden (path : string) : bool :=
  match path with
  | String c _ => PyStr.is_dot c
  | EmptyString => false
  end.

(** [glob.glob1(dirname, pattern)].  [scandir] gives the names in a
    directory in the order of the system, and [None] for the [OSError]
    of a directory that cannot be listed, which [glob] takes as no
    names. *)
Definition glob1 (scandir : string -> option (list string))
    (dirname pattern : string) : list string :=
  let dirname := if String.eqb dirname EmptyString then "." else dirname in
  let names := default [] (scandir dirname) in
  let names :=
    if _ishidden pattern then names
    else List.filter (fun x => negb (_ishidden x)) names in
  fnmatch_filter names pattern.

End Glob.

(** [l[:k]] for a list. *)
Definition slice_to {A : Type} (l : list A) (k : Z) : list A :=
  if k <? 0 then take (Z.to_nat (Z.of_nat (length l) + k)) l
  else take (Z.to_nat k) l.

(** What [parse_args] returns. *)
Record args := mk_args {
  args_remote : string;
  args_test : bool;
  args_fast : bool
}.

Section Main.
Import PyStr PyPath.
Context {E : environment}.

(** What the command line needs beside the installation: the listing of
    directories and the constant [NUM_FRAMES_FOR_TEST] of [sconst]. *)
Variable scandir : string -> option (list string).
Variable NUM_FRAMES_FOR_TEST : Z.

(** The frames that [main] hands to [optflow]. *)
Definition main_frames (a : args) : list string :=
  let remote := PyPath.parse (args_remote a) in
  let frames := Glob.glob1 scandir (PyPath.str remote) "*.ppm" in
  if args_test a then slice_to frames NUM_FRAMES_FOR_TEST else frames.

(** [main()] for the parsed arguments [a], run from the files [fs] under
    the schedule [sched]. *)
Definition main (a : args) (sched : list event) (fs : filesystem) : world :=
  let remote := PyPath.parse (args_remote a) in
  optflow 0 (main_frames a) remote (args_fast a) sched fs.

End Main.

(** ** More inputs for the examples *)

Module Inputs.
Import PyStr PyPath Numpy Demo.

(** What the frames of [Demo] load as, and the flow between them. *)
Definition pixel : image := mk_image 1 1 1 frame.
Definition still : ndarray :=
  mk_ndarray 1 1 2 (fun _ _ _ => S754_zero false).

(** The flow [flow_1x2] with other items outside its shape. *)
Definition flow_1x2_padded : ndarray :=
  mk_ndarray 1 2 2
    (fun y x c =>
       if (y <? 1)%nat then float32 (Z.of_nat (1 + 2 * x + c)) 0
       else S754_nan).

(** A directory listing, and a directory that cannot be listed. *)
Definition listing (_ : string) : option (list string) :=
  Some [".cache.ppm"; "frame_00002.ppm"; "notes.txt"; "frame_00001.ppm";
        "frame_00003.ppm"].
Definition unreadable (_ : string) : option (list string) := None.

Definition test_run : args := mk_args "/shared/video" true true.

End Inputs.


(** ** Facts about strings and paths *)

Module PathFacts.
Import PyStr PyPath.
Local Arguments join_parts : simpl never.

Lemma app_cons (c : ascii) (s t : string) :
  String c s +:+ t = String c (s +:+ t).
Proof. reflexivity. Qed.


Lemma app_assoc' (a b c : string) : (a +:+ b) +:+ c = a +:+ (b +:+ c).
Proof.
  induction a as [|x a IH]; [reflexivity|].
  rewrite !app_cons. by rewrite IH.
Qed.

Lemma all_chars_app P (a b : string) :
  all_chars P (a +:+ b) = all_chars P a && all_chars P b.
Proof.
  induction a as [|x a IH]; [reflexivity|].
  rewrite app_cons. simpl. rewrite IH. by rewrite andb_assoc.
Qed.

Lemma split_slash_no_slash (s : string) :
  no_slash s = true -> split_slash s = [s].
Proof.
  unfold no_slash. induction s as [|a s IH]; [reflexivity|].
  simpl. intros [Ha Hs]%andb_true_iff.
  destruct (is_slash a); [discriminate|]. by rewrite (IH Hs).
Qed.

Lemma parse_simple (n : string) :
  simple_name n = true -> parse n = mkPath false [n].
Proof.
  unfold simple_name. intros [Hs Hk]%andb_true_iff.
  unfold parse. rewrite (split_slash_no_slash _ Hs). simpl. rewrite Hk.
  f_equal. destruct n as [|a n]; [reflexivity|].
  unfold no_slash in Hs. simpl in *.
  apply andb_true_iff in Hs as [Ha _]. by destruct (is_slash a).
Qed.

Lemma join_parts_snoc (l : list string) (n : string) :
  l <> [] -> join_parts (l ++ [n]) = join_parts l +:+ "/" +:+ n.
Proof.
  induction l as [|x l IH]; [done|]. intros _.
  destruct l as [|y l].
  - reflexivity.
  - change (join_parts ((x :: y :: l) ++ [n]))
      with (x +:+ "/" +:+ join_parts ((y :: l) ++ [n])).
    rewrite IH by done.
    change (join_parts (x :: y :: l)) with (x +:+ "/" +:+ join_parts (y :: l)).
    by rewrite !app_assoc'.
Qed.

(** The string of [p / name] is a prefix fixed by [p], then [name]. *)
Lemma str_truediv_simple (p : Path) (n : string) :
  simple_name n = true -> str (p // n) = dir_prefix p +:+ n.
Proof.
  intros Hn. unfold truediv, join. rewrite (parse_simple _ Hn).
  unfold str, dir_prefix. cbn [anchored parts].
  destruct (parts p) as [|x l] eqn:Hp.
  - simpl. by destruct (anchored p).
  - cbn [app]. change (x :: l ++ [n])%list with ((x :: l) ++ [n])%list.
    rewrite join_parts_snoc by done. by rewrite !app_assoc'.
Qed.

Lemma str_truediv_inj (p : Path) (n m : string) :
  simple_name n = true -> simple_name m = true ->
  str (p // n) = str (p // m) -> n = m.
Proof.
  intros Hn Hm. rewrite !str_truediv_simple by done.
  apply String.app_inj.
Qed.

Lemma last_char_cons_ne (a : ascii) (s : string) :
  s <> EmptyString -> last_char (String a s) = last_char s.
Proof. by destruct s. Qed.


Lemma last_char_is_Some (s : string) : s <> EmptyString -> is_Some (last_char s).
Proof.
  induction s as [|a s IH]; [done|]. intros _.
  destruct s as [|b s]; [by eexists|].
  rewrite last_char_cons_ne by done. by apply IH.
Qed.






Lemma pretty_N_go_no_slash (x : N) (s : string) :
  no_slash s = true -> no_slash (pretty_N_go x s) = true.
Proof.
  revert s. induction (N.lt_wf_0 x) as [x _ IH]; intros s Hs.
  assert (x = 0 \/ 0 < x)%N as [->|?] by lia.
  - by rewrite pretty_N_go_0.
  - rewrite pretty_N_go_step by done. apply IH; [by apply N.div_lt|].
    unfold no_slash in *. simpl. rewrite Hs.
    unfold pretty_N_char. by repeat case_match.
Qed.

Lemma pretty_N_no_slash (x : N) : no_slash (pretty x) = true.
Proof.
  unfold pretty, pretty_N. case_decide; [done|].
  by apply pretty_N_go_no_slash.
Qed.

Lemma pretty_Z_no_slash (z : Z) : no_slash (pretty z) = true.
Proof.
  destruct z as [|p|p]; unfold pretty, pretty_Z; [done| |].
  - apply pretty_N_no_slash.
  - unfold no_slash. rewrite all_chars_app. simpl.
    apply pretty_N_no_slash.
Qed.


(** The output names of a job are one path component each. *)
Lemma flow_name_simple (pre ext : string) (a b : Z) :
  no_slash pre = true -> no_slash ext = true ->
  keep_part (pre +:+ pretty a +:+ "_" +:+ pretty b +:+ ext) = true ->
  simple_name (pre +:+ pretty a +:+ "_" +:+ pretty b +:+ ext) = true.
Proof.
  intros Hp He Hk. unfold simple_name. rewrite Hk, andb_true_r.
  unfold no_slash in *. rewrite !all_chars_app, Hp, He.
  fold (no_slash (pretty a)). fold (no_slash (pretty b)).
  by rewrite !pretty_Z_no_slash.
Qed.

Lemma forward_simple (idx : Z) :
  simple_name ("forward_" +:+ pretty idx +:+ "_" +:+ pretty (idx + 1) +:+ ".flo") = true.
Proof. by apply flow_name_simple. Qed.

Lemma backward_simple (idx : Z) :
  simple_name ("backward_" +:+ pretty (idx + 1) +:+ "_" +:+ pretty idx +:+ ".flo") = true.
Proof. by apply flow_name_simple. Qed.

Lemma reliable_simple (idx : Z) :
  simple_name ("reliable_" +:+ pretty (idx + 1) +:+ "_" +:+ pretty idx +:+ ".pgm") = true.
Proof. by apply flow_name_simple. Qed.

Lemma forward_ne_backward (idx : Z) (dst : Path) :
  forward_path idx dst <> backward_path idx dst.
Proof.
  intros H%str_truediv_inj;
    [|apply forward_simple|apply backward_simple].
  discriminate H.
Qed.

Lemma forward_ne_reliable (idx : Z) (dst : Path) :
  forward_path idx dst <> reliable_path idx dst.
Proof.
  intros H%str_truediv_inj;
    [|apply forward_simple|apply reliable_simple].
  discriminate H.
Qed.

Lemma backward_ne_reliable (idx : Z) (dst : Path) :
  backward_path idx dst <> reliable_path idx dst.
Proof.
  intros H%str_truediv_inj;
    [|apply backward_simple|apply reliable_simple].
  discriminate H.
Qed.






End PathFacts.

(** ** claim_job *)

Section ClaimJob.
Import PyStr PyPath PathFacts.
Context {E : environment}.

Lemma create_then_write (p : string) (data : list byte) (fs : filesystem) :
  alter (fun old => (old ++ data)%list) p (<[p := []]> fs) = <[p := data]> fs.
Proof.
  apply map_eq. intros q. destruct (decide (p = q)) as [->|Hne].
  - by rewrite lookup_alter_eq, !lookup_insert_eq.
  - by rewrite lookup_alter_ne, !lookup_insert_ne.
Qed.

(** What [claim_job] does, by cases on the placeholder. *)
Lemma claim_job_cases (idx : Z) (frames : list string) (dst : Path)
    (fs : filesystem) (p : string) :
  placeholder_path idx dst = Some p ->
  claim_job idx frames dst fs =
    match fs !! p with
    | Some _ => (Ok None, fs)
    | None =>
        if denied p then (Raise PermissionError, fs)
        else match frame_path idx dst, frame_path (idx + 1) dst with
             | Some s, Some e =>
                 (Ok (Some (s, e)), <[p := placeholder_text]> fs)
             | _, _ => (Raise TypeError, <[p := placeholder_text]> fs)
             end
    end.
Proof.
  unfold placeholder_path, frame_path, claim_job. intros Hp.
  destruct (percent (fst (splitext FRAME_NAME)) idx) as [stem|]; [|done].
  simpl in Hp. injection Hp as <-.
  unfold bind, except_FileExistsError, format_or_raise, ret, open_x, write.
  destruct (fs !! _) eqn:Hfs; [done|].
  destruct (denied _); [done|].
  rewrite create_then_write.
  destruct (percent FRAME_NAME idx); simpl; [|done].
  by destruct (percent FRAME_NAME (idx + 1)).
Qed.

Lemma claim_job_unformatted (idx : Z) (frames : list string) (dst : Path)
    (fs : filesystem) :
  placeholder_path idx dst = None ->
  claim_job idx frames dst fs = (Raise TypeError, fs).
Proof.
  unfold placeholder_path, claim_job. intros Hp.
  by destruct (percent (fst (splitext FRAME_NAME)) idx).
Qed.

(** C2: when the placeholder of [idx] exists, [claim_job] returns "no
    job" and leaves every file as it was; after a successful claim a
    second claim of [idx] returns "no job"; a placeholder that is absent
    and may not be created gives [PermissionError], not "no job". *)
Theorem claim_job_already_claimed (idx : Z) (frames : list string)
    (dst : Path) (fs : filesystem) (p : string) :
  placeholder_path idx dst = Some p ->
  (is_Some (fs !! p) -> claim_job idx frames dst fs = (Ok None, fs)) /\
  (forall names fs', claim_job idx frames dst fs = (Ok (Some names), fs') ->
     forall frames', claim_job idx frames' dst fs' = (Ok None, fs')) /\
  (fs !! p = None -> denied p = true ->
     claim_job idx frames dst fs = (Raise PermissionError, fs)).
Proof.
  intros Hp. split; [|split].
  - intros [x Hx]. by rewrite (claim_job_cases _ _ _ _ _ Hp), Hx.
  - intros names fs'. rewrite (claim_job_cases _ _ _ _ _ Hp).
    destruct (fs !! p) eqn:Hfs; [done|].
    destruct (denied p); [done|].
    destruct (frame_path idx dst); [|done].
    destruct (frame_path (idx + 1) dst); [|done].
    intros [= _ <-] frames'.
    by rewrite (claim_job_cases _ _ _ _ _ Hp), lookup_insert_eq.
  - intros Hfs Hd. by rewrite (claim_job_cases _ _ _ _ _ Hp), Hfs, Hd.
Qed.

(** C9: [claim_job] does the same for any two [frames] arguments, and
    its result is the same on two filesystems that agree on whether the
    placeholder of [idx] exists. *)
Theorem claim_job_ignores_frames (idx : Z) (dst : Path)
    (f1 f2 : list string) (fs : filesystem) :
  claim_job idx f1 dst fs = claim_job idx f2 dst fs /\
  forall fs' : filesystem,
    (forall p, placeholder_path idx dst = Some p ->
               (is_Some (fs !! p) <-> is_Some (fs' !! p))) ->
    fst (claim_job idx f1 dst fs) = fst (claim_job idx f2 dst fs').
Proof.
  split; [reflexivity|]. intros fs' Hsame.
  destruct (placeholder_path idx dst) as [p|] eqn:Hp.
  - rewrite !(claim_job_cases _ _ _ _ _ Hp).
    specialize (Hsame p eq_refl).
    destruct (fs !! p) eqn:H1, (fs' !! p) eqn:H2; try done.
    + destruct Hsame as [Hs _]. by destruct Hs.
    + destruct Hsame as [_ Hs]. by destruct Hs.
    + destruct (denied p); [done|].
      by destruct (frame_path idx dst), (frame_path (idx + 1) dst).
  - by rewrite !claim_job_unformatted.
Qed.
End ClaimJob.

(** ** write_flow and the pipeline of run_job *)

Section Pipeline.
Import PyStr PyPath PathFacts Numpy.
Context {E : environment}.

Lemma alter_after_insert (f : list byte -> list byte) (p : string)
    (x : list byte) (fs : filesystem) :
  alter f p (<[p := x]> fs) = <[p := f x]> fs.
Proof.
  apply map_eq. intros q. destruct (decide (p = q)) as [->|Hne].
  - by rewrite lookup_alter_eq, !lookup_insert_eq.
  - by rewrite lookup_alter_ne, !lookup_insert_ne.
Qed.

Lemma write_flow_cases (fname : string) (flow : ndarray) (fs : filesystem) :
  write_flow fname flow fs =
    if denied fname then (Raise PermissionError, fs)
    else (Ok tt, <[fname := flo_bytes flow]> fs).
Proof.
  unfold write_flow, bind, open_wb, write, flo_bytes.
  destruct (denied fname); [done|].
  rewrite !alter_after_insert. by rewrite <- !app_assoc.
Qed.


Lemma farneback_returns (start_name end_name fwd bwd : string)
    (fs fs' : filesystem) :
  farneback start_name end_name fwd bwd fs = (Ok tt, fs') ->
  denied fwd = false /\
  exists f b, fs' = <[bwd := flo_bytes b]> (<[fwd := flo_bytes f]> fs).
Proof.
  unfold farneback, bind, imread, cvtColor, cv2_or_raise.
  destruct ((fs !! start_name ≫= imdecode) ≫= cvtColor_BGR2GRAY) as [g1|];
    simpl; [|done].
  destruct ((fs !! end_name ≫= imdecode) ≫= cvtColor_BGR2GRAY) as [g2|];
    simpl; [|done].
  destruct (calcOpticalFlowFarneback g1 g2) as [f|]; simpl; [|done].
  destruct (calcOpticalFlowFarneback g2 g1) as [b|]; simpl; [|done].
  rewrite write_flow_cases. destruct (denied fwd) eqn:Hf; [done|].
  rewrite write_flow_cases. destruct (denied bwd) eqn:Hb; [done|].
  intros [= <-]. eauto.
Qed.

(** What the removal of the forward flow leaves of the three files of a
    job, once they are written. *)
Lemma remove_forward (idx : Z) (dst : Path) (fs fs' : filesystem)
    (d1 d2 d3 : list byte) :
  os_remove (forward_path idx dst)
    (<[reliable_path idx dst := d3]>
       (<[backward_path idx dst := d2]>
          (<[forward_path idx dst := d1]> fs))) = (Ok tt, fs') ->
  fs' !! forward_path idx dst = None /\
  fs' !! backward_path idx dst = Some d2 /\
  fs' !! reliable_path idx dst = Some d3 /\
  forall q, q <> forward_path idx dst -> q <> backward_path idx dst ->
            q <> reliable_path idx dst -> fs' !! q = fs !! q.
Proof.
  pose proof (forward_ne_backward idx dst) as Hfb.
  pose proof (forward_ne_reliable idx dst) as Hfr.
  pose proof (backward_ne_reliable idx dst) as Hbr.
  unfold os_remove.
  rewrite lookup_insert_ne, lookup_insert_ne, lookup_insert_eq by done.
  destruct (denied (forward_path idx dst)); [done|]. intros [= <-].
  split; [apply lookup_delete_eq|].
  rewrite !lookup_delete_ne by done.
  rewrite lookup_insert_ne, lookup_insert_eq by done.
  rewrite lookup_insert_eq.
  split; [done|]. split; [done|].
  intros q H1 H2 H3. rewrite lookup_delete_ne by done.
  by rewrite !lookup_insert_ne.
Qed.

(** C4: when [run_job] returns without raising and its external
    processes have succeeded, the forward flow file is gone, the
    backward flow file and the reliability map exist, and every other
    path is as before the job: nothing else has been removed. *)
Theorem successful_job_outputs (idx : Z) (start_name end_name : string)
    (dst : Path) (fast : bool) (fs fs' : filesystem) :
  run_job idx start_name end_name dst fast fs = (Ok tt, fs') ->
  processes_succeed idx start_name end_name dst fast fs ->
  fs' !! forward_path idx dst = None /\
  is_Some (fs' !! backward_path idx dst) /\
  is_Some (fs' !! reliable_path idx dst) /\
  forall q, q <> forward_path idx dst -> q <> backward_path idx dst ->
            q <> reliable_path idx dst -> fs' !! q = fs !! q.
Proof.
  intros Hrun Hok.
  assert (exists d1 d2 d3,
            os_remove (forward_path idx dst)
              (<[reliable_path idx dst := d3]>
                 (<[backward_path idx dst := d2]>
                    (<[forward_path idx dst := d1]> fs))) = (Ok tt, fs'))
    as (d1 & d2 & d3 & Hrm).
  { unfold run_job, bind in Hrun. unfold processes_succeed in Hok.
    destruct fast.
    - destruct (farneback _ _ _ _ fs) as [[[]|err] fs1] eqn:Hf; [|done].
      apply farneback_returns in Hf as (_ & f & b & ->).
      destruct Hok as (data & out & Hc). simpl in Hc.
      unfold subprocess_run, exits_ok in *. rewrite Hc in Hrun.
      simpl in Hrun. eauto.
    - destruct Hok as (m1 & d1 & o1 & m2 & d2 & o2 & d3 & o3 &
                       H1 & H2 & H3 & H4 & H5).
      unfold deepflow, bind, ret, subprocess_run, exits_ok in *.
      rewrite H1 in Hrun. simpl in Hrun. rewrite H2 in Hrun. simpl in Hrun.
      rewrite H3 in Hrun. simpl in Hrun. rewrite H4 in Hrun. simpl in Hrun.
      rewrite H5 in Hrun. simpl in Hrun. eauto. }
  apply remove_forward in Hrm as (Hf & Hb & Hr & Hq).
  rewrite Hb, Hr. eauto.
Qed.

Lemma option_fmap_exec (f : Z -> Z) prog args stdin (fs : filesystem) :
  subprocess_run (E := with_status f E) prog args stdin fs =
  subprocess_run prog args stdin fs.
Proof.
  unfold subprocess_run. simpl. by destruct (exec prog args stdin fs).
Qed.

(** The exit statuses of the external programs have no influence. *)
Lemma run_job_blind_to_status (f : Z -> Z) (idx : Z)
    (start_name end_name : string) (dst : Path) (fast : bool)
    (fs : filesystem) :
  run_job (E := with_status f E) idx start_name end_name dst fast fs =
  run_job idx start_name end_name dst fast fs.
Proof.
  unfold run_job, bind. destruct fast.
  - change (farneback (E := with_status f E)) with (farneback (E := E)).
    destruct (farneback _ _ _ _ fs) as [[[]|e] fs1]; [|done].
    change (tool (E := with_status f E)) with (tool (E := E)).
    rewrite option_fmap_exec.
    destruct (subprocess_run _ _ _ fs1) as [[?|?] ?]; reflexivity.
  - unfold deepflow, bind.
    change (tool (E := with_status f E)) with (tool (E := E)).
    repeat (rewrite option_fmap_exec;
            destruct (subprocess_run _ _ _ _) as [[?|?] ?];
            [|done]; unfold ret; cbv beta iota).
    reflexivity.
Qed.


Lemma farneback_undecoded (start_name end_name fwd bwd : string)
    (fs : filesystem) :
  fs !! start_name ≫= imdecode = None \/ fs !! end_name ≫= imdecode = None ->
  farneback start_name end_name fwd bwd fs = (Raise cv2_error, fs).
Proof.
  intros H. unfold farneback, bind, imread, cvtColor, cv2_or_raise.
  destruct H as [H|H].
  - by rewrite H.
  - destruct ((fs !! start_name ≫= imdecode) ≫= cvtColor_BGR2GRAY);
      simpl; [|done].
    by rewrite H.
Qed.

Lemma farneback_unwritable (start_name end_name fwd bwd : string)
    (fs : filesystem) (g1 g2 : image) (f b : ndarray) :
  (fs !! start_name ≫= imdecode) ≫= cvtColor_BGR2GRAY = Some g1 ->
  (fs !! end_name ≫= imdecode) ≫= cvtColor_BGR2GRAY = Some g2 ->
  calcOpticalFlowFarneback g1 g2 = Some f ->
  calcOpticalFlowFarneback g2 g1 = Some b ->
  denied fwd = true \/ denied bwd = true ->
  exists fs', farneback start_name end_name fwd bwd fs
              = (Raise PermissionError, fs').
Proof.
  intros H1 H2 Hf Hb Hd.
  unfold farneback, bind, imread, cvtColor, cv2_or_raise.
  rewrite H1. simpl. rewrite H2. simpl. rewrite Hf. simpl. rewrite Hb.
  simpl. rewrite !write_flow_cases.
  destruct (denied fwd) eqn:Hfw; [by eexists|].
  rewrite write_flow_cases.
  destruct Hd as [?|Hd]; [done|]. rewrite Hd. by eexists.
Qed.

Lemma thread_step_confined (dst : Path) (fast : bool) (t : nat) (w : world) :
  w_pc (thread_step dst fast t w) = w_pc w /\
  w_running (thread_step dst fast t w) = w_running w /\
  w_attempts (thread_step dst fast t w) = w_attempts w /\
  forall t', t' <> t ->
    w_threads (thread_step dst fast t w) !! t' = w_threads w !! t'.
Proof.
  unfold thread_step.
  destruct (w_threads w !! t) as [[i s e [|r]]|]; [|done..].
  destruct (run_job i s e dst fast (w_fs w)) as [r fs']. simpl.
  repeat split. intros t' Hne. by apply list_lookup_insert_ne.
Qed.

(** C5, amended: the exit statuses of the external processes have no
    influence on [run_job]; in fast mode a frame that is missing or does
    not decode, or a flow file that may not be written, makes it raise;
    a thread that runs its job, failing or not, leaves the coordinating
    thread and the other threads as they were. *)
Theorem job_failures (idx : Z) (start_name end_name : string) (dst : Path)
    (fs : filesystem) :
  (forall (f : Z -> Z) (fast : bool),
     run_job (E := with_status f E) idx start_name end_name dst fast fs =
     run_job idx start_name end_name dst fast fs) /\
  (fs !! start_name ≫= imdecode = None \/ fs !! end_name ≫= imdecode = None ->
     run_job idx start_name end_name dst true fs = (Raise cv2_error, fs)) /\
  (forall g1 g2 f b,
     (fs !! start_name ≫= imdecode) ≫= cvtColor_BGR2GRAY = Some g1 ->
     (fs !! end_name ≫= imdecode) ≫= cvtColor_BGR2GRAY = Some g2 ->
     calcOpticalFlowFarneback g1 g2 = Some f ->
     calcOpticalFlowFarneback g2 g1 = Some b ->
     denied (forward_path idx dst) = true \/
     denied (backward_path idx dst) = true ->
     exists fs', run_job idx start_name end_name dst true fs
                 = (Raise PermissionError, fs')) /\
  (forall (fast : bool) (t : nat) (w : world),
     w_pc (thread_step dst fast t w) = w_pc w /\
     w_running (thread_step dst fast t w) = w_running w /\
     forall t', t' <> t ->
       w_threads (thread_step dst fast t w) !! t' = w_threads w !! t').
Proof.
  split; [|split; [|split]].
  - intros f fast. apply run_job_blind_to_status.
  - intros H. unfold run_job, bind. by rewrite farneback_undecoded.
  - intros g1 g2 f b H1 H2 Hf Hb Hd.
    destruct (farneback_unwritable _ _ _ _ _ _ _ _ _ H1 H2 Hf Hb Hd)
      as [fs' Hfs'].
    exists fs'. unfold run_job, bind. by rewrite Hfs'.
  - intros fast t w.
    destruct (thread_step_confined dst fast t w) as (? & ? & _ & ?). done.
Qed.





End Pipeline.

(** ** The layout of a flow file *)

Section Arrays.
Import Numpy.

Lemma length_flat_map_uniform {A B} (f : A -> list B) (l : list A) (k : nat) :
  (forall x, In x l -> length (f x) = k) ->
  length (flat_map f l) = (length l * k)%nat.
Proof.
  induction l as [|a l IH]; [done|]. intros Hk. simpl.
  rewrite length_app, IH, (Hk a); [lia|by left|].
  intros x Hx. apply Hk. by right.
Qed.

(** In a concatenation of blocks of [k] items, item [j] of block [i]
    is at position [i * k + j]. *)
Lemma lookup_flat_map_uniform {A B} (f : A -> list B) (l : list A)
    (k i j : nat) (a : A) :
  (forall x, In x l -> length (f x) = k) ->
  l !! i = Some a -> (j < k)%nat ->
  flat_map f l !! (i * k + j)%nat = f a !! j.
Proof.
  revert i. induction l as [|x l IH]; [done|]. intros i Hk Hi Hj.
  simpl. destruct i as [|i].
  - injection Hi as ->. simpl. apply lookup_app_l. rewrite Hk; [done|by left].
  - rewrite lookup_app_r; rewrite (Hk x) by (by left); [|lia].
    replace (S i * k + j - k)%nat with (i * k + j)%nat by lia.
    apply IH; [|done..]. intros y Hy. apply Hk. by right.
Qed.

Lemma drop_flat_map_uniform {A B} (f : A -> list B) (l : list A) (k i : nat) :
  (forall x, In x l -> length (f x) = k) ->
  drop (i * k) (flat_map f l) = flat_map f (drop i l).
Proof.
  revert i. induction l as [|x l IH]; intros i Hk.
  - simpl. by rewrite !drop_nil.
  - destruct i as [|i]; [done|]. simpl.
    rewrite drop_app_ge; rewrite (Hk x) by (by left); [|lia].
    replace (k + i * k - k)%nat with (i * k)%nat by lia.
    apply IH. intros y Hy. apply Hk. by right.
Qed.

Lemma length_word32_bytes (bo : byteorder) (w : Z) :
  length (word32_bytes bo w) = 4%nat.
Proof. by destruct bo. Qed.

Lemma length_ravel_row (a : ndarray) (y : nat) :
  length (flat_map (fun x => List.map (fun c => item a y x c) (seq 0 (dim2 a)))
            (seq 0 (dim1 a))) = (dim1 a * dim2 a)%nat.
Proof.
  rewrite (length_flat_map_uniform _ _ (dim2 a)).
  - by rewrite length_seq.
  - intros x _. by rewrite length_map, length_seq.
Qed.

Lemma length_ravel (a : ndarray) :
  length (ravel a) = (dim0 a * dim1 a * dim2 a)%nat.
Proof.
  unfold ravel. rewrite (length_flat_map_uniform _ _ (dim1 a * dim2 a)).
  - rewrite length_seq. lia.
  - intros y _. apply length_ravel_row.
Qed.

(** Row-major order: item [(y, x, c)] is at [(y * dim1 + x) * dim2 + c]. *)
Lemma ravel_lookup (a : ndarray) (y x c : nat) :
  (y < dim0 a)%nat -> (x < dim1 a)%nat -> (c < dim2 a)%nat ->
  ravel a !! ((y * dim1 a + x) * dim2 a + c)%nat = Some (item a y x c).
Proof.
  intros Hy Hx Hc. unfold ravel.
  replace ((y * dim1 a + x) * dim2 a + c)%nat
    with (y * (dim1 a * dim2 a) + (x * dim2 a + c))%nat by lia.
  rewrite (lookup_flat_map_uniform _ _ (dim1 a * dim2 a) y _ y).
  - rewrite (lookup_flat_map_uniform _ _ (dim2 a) x c x).
    + rewrite list_lookup_fmap, lookup_seq_lt by done. done.
    + intros ? _. by rewrite length_map, length_seq.
    + by apply lookup_seq_lt.
    + done.
  - intros ? _. apply length_ravel_row.
  - by apply lookup_seq_lt.
  - nia.
Qed.

(** The [k]-th value of a list of floats occupies the four bytes from
    offset [4 * k]. *)
Lemma float32_tobytes_at (bo : byteorder) (l : list spec_float) (k : nat)
    (v : spec_float) :
  l !! k = Some v ->
  take 4 (drop (k * 4) (float32_tobytes bo l)) = word32_bytes bo (float32_bits v).
Proof.
  intros Hk. unfold float32_tobytes.
  rewrite (drop_flat_map_uniform _ _ 4)
    by (intros; apply length_word32_bytes).
  rewrite (drop_S _ _ _ Hk). simpl.
  apply take_app_length'. by rewrite length_word32_bytes.
Qed.

Context {E : environment}.

(** C6: a flow of shape (height, width, 2) whose file may be written
    leaves at [fname], whatever was there before, the magic number
    202021.25 as a binary32 value (12929360 * 2^-6, the word
    0x48454950), the width and the height as 32-bit words, and
    width * height * 2 binary32 values, the component [c] of the pixel
    [(y, x)] at position [(y * width + x) * 2 + c], four bytes each. *)
Theorem write_flow_layout (fname : string) (flow : ndarray)
    (fs : filesystem) :
  denied fname = false ->
  dim2 flow = 2%nat ->
  Z.of_nat (dim0 flow) < 2 ^ 32 -> Z.of_nat (dim1 flow) < 2 ^ 32 ->
  write_flow fname flow fs =
    (Ok tt,
     <[fname := (word32_bytes native 1212500304 ++
                 word32_bytes native (Z.of_nat (dim1 flow)) ++
                 word32_bytes native (Z.of_nat (dim0 flow)) ++
                 float32_tobytes native (ravel flow))%list]> fs) /\
  (flo_magic = S754_finite false 12929360 (-6) /\
   12929360 * 100 = 20202125 * 2 ^ 6 /\
   float32_bits flo_magic = 1212500304) /\
  length (ravel flow) = (dim1 flow * dim0 flow * 2)%nat /\
  (forall y x c : nat,
     (y < dim0 flow)%nat -> (x < dim1 flow)%nat -> (c < 2)%nat ->
     ravel flow !! ((y * dim1 flow + x) * 2 + c)%nat
       = Some (item flow y x c)) /\
  (forall (k : nat) (v : spec_float),
     ravel flow !! k = Some v ->
     take 4 (drop (k * 4) (float32_tobytes native (ravel flow)))
       = word32_bytes native (float32_bits v)).
Proof.
  intros Hd H2 Hh Hw. split; [|split; [|split; [|split]]].
  - rewrite write_flow_cases, Hd. unfold flo_bytes, uint32.
    rewrite !Z.mod_small by lia.
    unfold float32_tobytes. simpl. by rewrite app_nil_r.
  - by vm_compute.
  - rewrite length_ravel, H2. lia.
  - intros y x c Hy Hx Hc. rewrite <- H2. apply ravel_lookup; [done..|lia].
  - intros k v. apply float32_tobytes_at.
Qed.
End Arrays.

(** ** The worker loop of optflow *)

Section Loop.
Import PyStr PyPath PathFacts Numpy.
Context {E : environment}.

Variables (frames : list string) (dst : Path) (fast : bool).

Lemma isAlive_length (ths : list thread) (t : nat) :
  isAlive ths t = true -> (t < length ths)%nat.
Proof.
  unfold isAlive. destruct (ths !! t) eqn:H; [|done].
  intros _. by eapply lookup_lt_Some.
Qed.

Lemma isAlive_spawn (ths : list thread) (th : thread) (t : nat) :
  isAlive (ths ++ [th]) t = true ->
  isAlive ths t = true \/ t = length ths.
Proof.
  unfold isAlive. destruct (decide (t < length ths)%nat) as [Hlt|Hge].
  - rewrite lookup_app_l by done. auto.
  - destruct (decide (t = length ths)) as [->|Hne]; [auto|].
    rewrite lookup_ge_None_2; [done|]. rewrite length_app. simpl. lia.
Qed.

Lemma isAlive_finish (ths : list thread) (t t' : nat) (th : thread) :
  t_state th <> Alive ->
  isAlive (<[t := th]> ths) t' = true -> isAlive ths t' = true /\ t' <> t.
Proof.
  intros Hth. unfold isAlive.
  destruct (decide (t' = t)) as [->|Hne].
  - destruct (decide (t < length ths)%nat).
    + rewrite list_lookup_insert_eq by done. by destruct (t_state th).
    + rewrite list_insert_ge by lia. rewrite lookup_ge_None_2 by lia. done.
  - by rewrite list_lookup_insert_ne.
Qed.

Lemma coordinator_step_pool (w : world) :
  pool_inv w -> pool_inv (coordinator_step frames dst w).
Proof.
  intros (Hnd & Hal & Hlt & Hpc). unfold coordinator_step.
  destruct (w_pc w) as [idx stop|[|t rest]| |e] eqn:Epc.
  - destruct (stop <=? idx); [by repeat split|].
    destruct (MAX_OPTFLOW_JOBS <=? _) eqn:Hfull.
    + repeat split; simpl; try done.
      * by apply List.NoDup_filter.
      * intros t Ht. apply filter_In. auto.
      * intros t [Ht _]%filter_In. auto.
    + apply Z.leb_gt in Hfull.
      destruct (claim_job _ _ _ _) as [[[[s e]|]|err] fs'];
        [|by repeat split..].
      destruct (truthy s); [|by repeat split].
      repeat split; simpl; try done.
      * apply List.NoDup_app; [done|repeat constructor; by intros []|].
        intros t Ht%Hlt [<-|[]]. lia.
      * intros t [Ht| ->]%isAlive_spawn; apply in_app_iff; [auto|].
        right. by left.
      * intros t [Ht|[<-|[]]]%in_app_iff; rewrite length_app; simpl;
          [apply Hlt in Ht|]; lia.
  - repeat split; simpl; try done.
    intros t. destruct (isAlive (w_threads w) t) eqn:Ht; [|done].
    by apply Hpc in Ht.
  - destruct (isAlive (w_threads w) t) eqn:Ht.
    + repeat split; try done. by rewrite Epc.
    + repeat split; simpl; try done. intros t' Ht'.
      destruct (Hpc t' Ht') as [<-|?]; [congruence|done].
  - repeat split; try done. by rewrite Epc.
  - repeat split; try done. by rewrite Epc.
Qed.

Lemma thread_step_pool (t : nat) (w : world) :
  pool_inv w -> pool_inv (thread_step dst fast t w).
Proof.
  intros (Hnd & Hal & Hlt & Hpc). unfold thread_step.
  destruct (w_threads w !! t) as [[i s e [|r]]|] eqn:Ht;
    [|by repeat split..].
  destruct (run_job i s e dst fast (w_fs w)) as [r fs'].
  assert (Hback : forall t', isAlive (<[t := mk_thread i s e (Finished r)]>
                                        (w_threads w)) t' = true ->
                             isAlive (w_threads w) t' = true).
  { intros t' Ht'. by apply isAlive_finish in Ht' as [? _]. }
  repeat split; simpl; try done.
  - auto.
  - intros t' Ht'. rewrite length_insert. auto.
  - destruct (w_pc w); try done.
    + auto.
    + intros t'.
      destruct (isAlive (<[t:=_]> (w_threads w)) t') eqn:Ht'; [|done].
      apply Hback in Ht'. by rewrite Hpc in Ht'.
Qed.

Lemma step_pool (w : world) (e : event) :
  pool_inv w -> pool_inv (step frames dst fast w e).
Proof.
  destruct e as [|t|f]; simpl.
  - apply coordinator_step_pool.
  - apply thread_step_pool.
  - done.
Qed.

Lemma steps_pool (sched : list event) (w : world) :
  pool_inv w -> pool_inv (fold_left (step frames dst fast) sched w).
Proof.
  revert w. induction sched as [|e sched IH]; [done|].
  intros w Hw. simpl. by apply IH, step_pool.
Qed.

Lemma init_pool (start : Z) (fs : filesystem) :
  pool_inv (optflow_init start frames fs).
Proof. repeat split; simpl; try done; constructor. Qed.

Lemma step_cap (w : world) (e : event) :
  cap_inv w -> cap_inv (step frames dst fast w e).
Proof.
  unfold cap_inv. intros Hw. destruct e as [|t|f]; simpl; [| |done].
  - unfold coordinator_step.
    destruct (w_pc w) as [idx stop|[|t rest]| |e]; try done.
    + destruct (stop <=? idx); [done|].
      destruct (Z.leb_spec MAX_OPTFLOW_JOBS (Z.of_nat (length (w_running w)))).
      * simpl.
        pose proof (List.filter_length_le (isAlive (w_threads w)) (w_running w)).
        lia.
      * destruct (claim_job _ _ _ _) as [[[[s e]|]|err] fs']; [|done..].
        destruct (truthy s); [|done]. simpl. rewrite length_app. simpl. lia.
    + by destruct (isAlive _ _).
  - unfold thread_step.
    destruct (w_threads w !! t) as [[i s e [|r]]|]; [|done..].
    by destruct (run_job i s e dst fast (w_fs w)).
Qed.

Lemma steps_cap (sched : list event) (w : world) :
  cap_inv w -> cap_inv (fold_left (step frames dst fast) sched w).
Proof.
  revert w. induction sched as [|e sched IH]; [done|].
  intros w Hw. simpl. by apply IH, step_cap.
Qed.

Lemma active_le_running (w : world) :
  pool_inv w -> (active w <= length (w_running w))%nat.
Proof.
  intros (Hnd & Hal & _). unfold active.
  apply NoDup_incl_length.
  - apply List.NoDup_filter, seq_NoDup.
  - intros t [_ Ht]%filter_In. auto.
Qed.

(** C3: with a cap that is not negative, at every point of every
    execution of [optflow] the number of threads that are started and
    not finished is at most [MAX_OPTFLOW_JOBS]; and when it equals the
    cap, the next step of the coordinating thread claims nothing and
    starts nothing. *)
Theorem active_jobs_bounded (start : Z) (sched : list event)
    (fs : filesystem) :
  0 <= MAX_OPTFLOW_JOBS ->
  let w := optflow start frames dst fast sched fs in
  Z.of_nat (active w) <= MAX_OPTFLOW_JOBS /\
  (Z.of_nat (active w) = MAX_OPTFLOW_JOBS ->
   let w' := coordinator_step frames dst w in
   w_attempts w' = w_attempts w /\ w_threads w' = w_threads w /\
   w_fs w' = w_fs w).
Proof.
  intros Hmax w.
  assert (Hw : pool_inv w) by (by apply steps_pool, init_pool).
  pose proof (active_le_running w Hw) as Hact.
  assert (Hrun : cap_inv w) by (by apply steps_cap).
  unfold cap_inv in Hrun. split; [lia|]. intros Hfull. unfold coordinator_step.
  destruct (w_pc w) as [idx stop|[|t rest]| |e]; try done.
  - destruct (stop <=? idx); [done|].
    destruct (Z.leb_spec MAX_OPTFLOW_JOBS (Z.of_nat (length (w_running w))));
      [done|lia].
  - by destruct (isAlive (w_threads w) t).
Qed.

Lemma upto_snoc (start idx : Z) :
  start <= idx -> upto start (idx + 1) = (upto start idx ++ [idx + 1])%list.
Proof.
  intros H. unfold upto.
  replace (Z.to_nat (idx + 1 - start)) with (S (Z.to_nat (idx - start))) by lia.
  rewrite seq_S, map_app. simpl. do 2 f_equal. lia.
Qed.

Lemma upto_nil (start j : Z) : j <= start -> upto start j = [].
Proof.
  intros H. unfold upto. by replace (Z.to_nat (j - start)) with O by lia.
Qed.

Lemma claim_indices_upto (start : Z) (n : nat) :
  claim_indices start n = upto start (start + Z.of_nat n - 1).
Proof.
  unfold claim_indices, upto. do 2 f_equal. lia.
Qed.

Lemma upto_take (start j stop : Z) :
  j <= stop -> upto start j = take (Z.to_nat (j - start)) (upto start stop).
Proof.
  intros H. unfold upto. rewrite <- fmap_take, take_seq.
  do 2 f_equal. lia.
Qed.

Lemma coordinator_step_trace (start : Z) (n : nat) (w : world) :
  trace_inv start n w -> trace_inv start n (coordinator_step frames dst w).
Proof.
  unfold trace_inv, coordinator_step.
  destruct (w_pc w) as [idx stop|[|t rest]| |e] eqn:Epc; simpl.
  - intros (-> & Hlo & Hhi & Hat).
    destruct (Z.leb_spec (start + Z.of_nat n - 1) idx) as [Hend|Hmore].
    { simpl. rewrite Hat, claim_indices_upto.
      destruct Hhi as [Hhi| ->]; [f_equal; lia|].
      by rewrite !upto_nil by lia. }
    destruct (MAX_OPTFLOW_JOBS <=? _); [by simpl|].
    assert (Hnew : (w_attempts w ++ [idx + 1])%list = upto start (idx + 1))
      by (by rewrite upto_snoc, Hat).
    destruct (claim_job _ _ _ _) as [[[[s e]|]|err] fs'].
    + destruct (truthy s); simpl; (split; [done|]); (split; [lia|]);
        (split; [lia|done]).
    + simpl. split; [done|]. split; [lia|]. split; [lia|done].
    + simpl. exists (idx + 1). split; [lia|done].
  - done.
  - destruct (isAlive _ _); simpl; [by rewrite Epc|done].
  - by rewrite Epc.
  - by rewrite Epc.
Qed.

Lemma step_trace (start : Z) (n : nat) (w : world) (e : event) :
  trace_inv start n w -> trace_inv start n (step frames dst fast w e).
Proof.
  destruct e as [|t|f]; simpl; [apply coordinator_step_trace| |done].
  unfold thread_step, trace_inv.
  destruct (w_threads w !! t) as [[i s e [|r]]|]; [|done..].
  by destruct (run_job i s e dst fast (w_fs w)).
Qed.

Lemma steps_trace (start : Z) (n : nat) (sched : list event) (w : world) :
  trace_inv start n w ->
  trace_inv start n (fold_left (step frames dst fast) sched w).
Proof.
  revert w. induction sched as [|e sched IH]; [done|].
  intros w Hw. simpl. by apply IH, step_trace.
Qed.

Lemma init_trace (start : Z) (fs : filesystem) :
  trace_inv start (length frames) (optflow_init start frames fs).
Proof.
  unfold trace_inv. simpl. split; [done|]. split; [lia|].
  split; [by right|]. by rewrite upto_nil.
Qed.

Lemma trace_prefix (start : Z) (n : nat) (w : world) :
  trace_inv start n w ->
  exists k, w_attempts w = take k (claim_indices start n).
Proof.
  unfold trace_inv. rewrite claim_indices_upto.
  destruct (w_pc w) as [idx stop|rest| |e].
  - intros (_ & Hlo & [Hhi| ->] & ->).
    + eexists. by apply upto_take.
    + exists O. by rewrite upto_nil.
  - intros ->. eexists. by rewrite take_ge.
  - intros ->. eexists. by rewrite take_ge.
  - intros (j & Hj & ->). eexists. apply upto_take. lia.
Qed.

Lemma claim_indices_sorted (start : Z) (n : nat) :
  StronglySorted Z.lt (claim_indices start n).
Proof.
  unfold claim_indices. generalize (n - 1)%nat as m. intros m.
  assert (H : forall a, StronglySorted Z.lt
            (List.map (fun k => start + 1 + Z.of_nat k) (seq a m))).
  { induction m as [|m IH]; intros a; simpl; constructor; [apply IH|].
    apply List.Forall_forall. intros x [k [<- [Hk _]%in_seq]]%in_map_iff. lia. }
  apply H.
Qed.

(** **** Progress: the loop can always run to its return *)

Lemma claimable_ok (idx : Z) (fs : filesystem) :
  claimable idx dst ->
  exists r fs', claim_job idx frames dst fs = (Ok r, fs').
Proof.
  intros (p & Hp & Hd & [s Hs] & [e He]).
  rewrite (claim_job_cases _ _ _ _ _ Hp), Hd, Hs, He.
  destruct (fs !! p); by eexists _, _.
Qed.

Lemma thread_step_dead (t : nat) (w : world) :
  isAlive (w_threads (thread_step dst fast t w)) t = false.
Proof.
  unfold thread_step, isAlive.
  destruct (w_threads w !! t) as [[i s e [|r]]|] eqn:Ht.
  - destruct (run_job i s e dst fast (w_fs w)) as [r fs']. simpl.
    rewrite list_lookup_insert_eq; [done|]. by eapply lookup_lt_Some.
  - by rewrite Ht.
  - by rewrite Ht.
Qed.

Lemma thread_step_length (t : nat) (w : world) :
  length (w_threads (thread_step dst fast t w)) = length (w_threads w).
Proof.
  unfold thread_step.
  destruct (w_threads w !! t) as [[i s e [|r]]|]; [|done..].
  destruct (run_job i s e dst fast (w_fs w)). simpl. apply length_insert.
Qed.

Lemma thread_step_isAlive (t t' : nat) (w : world) :
  t' <> t ->
  isAlive (w_threads (thread_step dst fast t w)) t' = isAlive (w_threads w) t'.
Proof.
  intros Hne. unfold isAlive.
  destruct (thread_step_confined dst fast t w) as (_ & _ & _ & H).
  by rewrite H.
Qed.

Lemma drain_upto (n : nat) (w : world) :
  let w' := fold_left (step frames dst fast) (List.map Thread (seq 0 n)) w in
  w_pc w' = w_pc w /\ w_running w' = w_running w /\
  length (w_threads w') = length (w_threads w) /\
  forall t, (t < n)%nat -> isAlive (w_threads w') t = false.
Proof.
  induction n as [|n IH]; [by repeat split; intros; lia|].
  rewrite seq_S, map_app, fold_left_app. simpl.
  destruct IH as (Hpc & Hrun & Hlen & Hdead).
  set (w1 := fold_left (step frames dst fast) (List.map Thread (seq 0 n)) w) in *.
  destruct (thread_step_confined dst fast n w1) as (Hpc' & Hrun' & _ & _).
  split; [congruence|]. split; [congruence|].
  split; [by rewrite thread_step_length|].
  intros t Ht. destruct (decide (t = n)) as [->|Hne].
  - apply thread_step_dead.
  - rewrite thread_step_isAlive by done. apply Hdead. lia.
Qed.

Lemma drain (w : world) :
  exists s, quiet (fold_left (step frames dst fast) s w) /\
            w_pc (fold_left (step frames dst fast) s w) = w_pc w.
Proof.
  exists (List.map Thread (seq 0 (length (w_threads w)))).
  destruct (drain_upto (length (w_threads w)) w) as (Hpc & _ & Hlen & Hdead).
  split; [|done]. intros t.
  destruct (decide (t < length (w_threads w))%nat); [auto|].
  unfold isAlive. rewrite lookup_ge_None_2; [done|]. lia.
Qed.

Lemma filter_quiet (ths : list thread) (l : list nat) :
  (forall t, isAlive ths t = false) -> List.filter (isAlive ths) l = [].
Proof.
  intros H. induction l as [|t l IH]; [done|]. simpl. by rewrite H.
Qed.

Lemma claim_one (idx stop : Z) (w : world) :
  w_pc w = AtLoop idx stop -> idx < stop -> quiet w ->
  Z.of_nat (length (w_running w)) < MAX_OPTFLOW_JOBS ->
  claimable (idx + 1) dst ->
  let w' := fold_left (step frames dst fast) [Coordinator; Thread (length (w_threads w))] w in
  w_pc w' = AtLoop (idx + 1) stop /\ quiet w'.
Proof.
  intros Hpc Hlt Hq Hroom Hc. simpl. unfold coordinator_step. rewrite Hpc.
  destruct (Z.leb_spec stop idx); [lia|].
  destruct (Z.leb_spec MAX_OPTFLOW_JOBS (Z.of_nat (length (w_running w))));
    [lia|].
  destruct (claimable_ok (idx + 1) (w_fs w) Hc) as (r & fs' & ->).
  assert (Hskip : forall run, 
    let w1 := mk_world fs' (AtLoop (idx + 1) stop) run (w_threads w)
                (w_attempts w ++ [idx + 1])%list in
    w_pc (thread_step dst fast (length (w_threads w)) w1)
      = AtLoop (idx + 1) stop /\
    quiet (thread_step dst fast (length (w_threads w)) w1)).
  { intros run w1. unfold thread_step. simpl.
    rewrite lookup_ge_None_2 by lia. done. }
  destruct r as [[s e]|]; [|apply Hskip].
  destruct (truthy s); [|apply Hskip].
  split.
  - by destruct (thread_step_confined dst fast (length (w_threads w))
      (mk_world fs' (AtLoop (idx + 1) stop)
         (w_running w ++ [length (w_threads w)])%list
         (w_threads w ++ [mk_thread (idx + 1) s e Alive])%list
         (w_attempts w ++ [idx + 1])%list)) as (-> & _).
  - intros t. destruct (decide (t = length (w_threads w))) as [->|Hne].
    + apply thread_step_dead.
    + rewrite thread_step_isAlive by done. simpl.
      destruct (isAlive (w_threads w ++ _) t) eqn:Ht; [|done].
      apply isAlive_spawn in Ht as [Ht|Ht]; [by rewrite Hq in Ht|done].
Qed.

Lemma finish_join (rest : list nat) (w : world) :
  w_pc w = AtJoin rest -> quiet w ->
  exists s, w_pc (fold_left (step frames dst fast) s w) = Returned.
Proof.
  revert w. induction rest as [|t rest IH]; intros w Hpc Hq.
  - exists [Coordinator]. simpl. unfold coordinator_step. by rewrite Hpc.
  - destruct (IH (coordinator_step frames dst w)) as [s Hs].
    + unfold coordinator_step. by rewrite Hpc, Hq.
    + unfold coordinator_step. by rewrite Hpc, Hq.
    + by exists (Coordinator :: s).
Qed.

Lemma finish_loop (m : nat) (idx stop : Z) (w : world) :
  Z.to_nat (stop - idx) = m ->
  w_pc w = AtLoop idx stop -> quiet w ->
  1 <= MAX_OPTFLOW_JOBS ->
  (forall i, idx < i <= stop -> claimable i dst) ->
  exists s, w_pc (fold_left (step frames dst fast) s w) = Returned.
Proof.
  revert idx w. induction m as [|m IH]; intros idx w Hm Hpc Hq Hmax Hc.
  - destruct (finish_join (w_running w) (coordinator_step frames dst w))
      as [s Hs].
    + unfold coordinator_step. rewrite Hpc.
      destruct (Z.leb_spec stop idx); [done|lia].
    + unfold coordinator_step. rewrite Hpc.
      destruct (Z.leb_spec stop idx); [done|lia].
    + by exists (Coordinator :: s).
  - assert (exists s0, w_pc (fold_left (step frames dst fast) s0 w) = AtLoop idx stop /\
                       quiet (fold_left (step frames dst fast) s0 w) /\
                       Z.of_nat (length (w_running (fold_left (step frames dst fast) s0 w)))
                         < MAX_OPTFLOW_JOBS) as (s0 & Hpc0 & Hq0 & Hroom).
    { destruct (Z.leb_spec MAX_OPTFLOW_JOBS (Z.of_nat (length (w_running w))))
        as [Hfull|Hroom]; [|by exists []].
      exists [Coordinator]. simpl. unfold coordinator_step. rewrite Hpc.
      destruct (Z.leb_spec stop idx); [lia|].
      destruct (Z.leb_spec MAX_OPTFLOW_JOBS (Z.of_nat (length (w_running w))));
        [|lia].
      simpl. rewrite filter_quiet by done. simpl. repeat split; [done|lia]. }
    set (w0 := fold_left (step frames dst fast) s0 w) in *.
    destruct (claim_one idx stop w0 Hpc0 ltac:(lia) Hq0 Hroom
                ltac:(apply Hc; lia)) as [Hpc1 Hq1].
    set (s1 := [Coordinator; Thread (length (w_threads w0))]) in *.
    destruct (IH (idx + 1) (fold_left (step frames dst fast) s1 w0) ltac:(lia) Hpc1 Hq1 Hmax
                ltac:(intros; apply Hc; lia)) as [s2 Hs2].
    exists (s0 ++ s1 ++ s2)%list. by rewrite !fold_left_app.
Qed.

Lemma step_unraised (start : Z) (n : nat) (w : world) (e : event) :
  (forall i, start < i <= start + Z.of_nat n - 1 -> claimable i dst) ->
  trace_inv start n w -> unraised w -> unraised (step frames dst fast w e).
Proof.
  intros Hc Ht Hu. destruct e as [|t|f]; simpl; [| |done].
  - unfold unraised, coordinator_step. unfold trace_inv in Ht.
    destruct (w_pc w) as [idx stop|[|t rest]| |err] eqn:Epc; try done.
    + destruct Ht as (-> & Hlo & _ & _).
      destruct (Z.leb_spec (start + Z.of_nat n - 1) idx); [done|].
      destruct (MAX_OPTFLOW_JOBS <=? _); [done|].
      destruct (claimable_ok (idx + 1) (w_fs w)) as (r & fs' & ->);
        [apply Hc; lia|].
      destruct r as [[s e]|]; [|done]. by destruct (truthy s).
    + destruct (isAlive _ _); [by rewrite Epc|done].
  - unfold unraised.
    by destruct (thread_step_confined dst fast t w) as (-> & _).
Qed.

Lemma steps_unraised (start : Z) (n : nat) (sched : list event) (w : world) :
  (forall i, start < i <= start + Z.of_nat n - 1 -> claimable i dst) ->
  trace_inv start n w -> unraised w -> unraised (fold_left (step frames dst fast) sched w).
Proof.
  intros Hc. revert w. induction sched as [|e sched IH]; [done|].
  intros w Ht Hu. simpl. apply IH; [by apply step_trace|].
  by eapply step_unraised.
Qed.

Lemma in_claim_indices (start : Z) (n : nat) (i : Z) :
  In i (claim_indices start n) <-> start < i <= start + Z.of_nat n - 1.
Proof.
  unfold claim_indices. rewrite in_map_iff. split.
  - intros (k & <- & [_ Hk]%in_seq). lia.
  - intros Hi. exists (Z.to_nat (i - start - 1)). split; [lia|].
    apply in_seq. lia.
Qed.

(** C7: at every point of every execution of [optflow] the indices
    attempted so far are an initial part of [start+1, ..., start+n-1],
    a strictly increasing list; when [optflow] has returned, all of
    them have been attempted and no thread is alive; and when the cap
    is at least 1 and no claim of the range can raise, every execution
    can be continued to the return. *)
Theorem claims_in_order (start : Z) (sched : list event) (fs : filesystem) :
  let n := length frames in
  let w := optflow start frames dst fast sched fs in
  (exists k, w_attempts w = take k (claim_indices start n)) /\
  (StronglySorted Z.lt (claim_indices start n) /\
   forall i, In i (claim_indices start n)
             <-> start < i <= start + Z.of_nat n - 1) /\
  (w_pc w = Returned ->
   w_attempts w = claim_indices start n /\ active w = 0%nat) /\
  (1 <= MAX_OPTFLOW_JOBS ->
   (forall i, start < i <= start + Z.of_nat n - 1 -> claimable i dst) ->
   exists sched',
     w_pc (optflow start frames dst fast (sched ++ sched') fs) = Returned).
Proof.
  intros n w.
  assert (Ht : trace_inv start n w) by apply steps_trace, init_trace.
  assert (Hp : pool_inv w) by apply steps_pool, init_pool.
  split; [by apply trace_prefix|].
  split; [split; [apply claim_indices_sorted|apply in_claim_indices]|].
  split.
  - intros Hret. unfold trace_inv in Ht. rewrite Hret in Ht. split; [done|].
    destruct Hp as (_ & _ & _ & Hq). rewrite Hret in Hq.
    unfold active. by rewrite filter_quiet.
  - intros Hmax Hc.
    assert (Hu : unraised w).
    { eapply steps_unraised; [done|apply init_trace|done]. }
    destruct (drain w) as (s0 & Hq0 & Hpc0).
    assert (exists s1,
              w_pc (fold_left (step frames dst fast) s1
                      (fold_left (step frames dst fast) s0 w)) = Returned)
      as [s1 Hs1].
    { unfold trace_inv in Ht.
      destruct (w_pc w) as [idx stop|rest| |e] eqn:Epc.
      - destruct Ht as (-> & Hlo & _ & _).
        eapply finish_loop; [done..|]. intros i Hi. apply Hc. lia.
      - by eapply finish_join.
      - by exists [].
      - by destruct (Hu e). }
    exists (s0 ++ s1)%list. unfold optflow.
    by rewrite !fold_left_app.
Qed.

Lemma step_idle (start : Z) (w : world) (e : event) (k : nat) :
  idle_at start w k ->
  idle_at start (step frames dst fast w e) (coordinator_moves [e] + k) /\
  w_fs (step frames dst fast w e) = elsewhere_only [e] (w_fs w).
Proof.
  intros (Ha & Ht & Hr & Hpc). destruct e as [|t|f]; simpl.
  - unfold coordinator_step. destruct k as [|[|k]].
    + destruct Hpc as (stop & Hstop & ->).
      destruct (Z.leb_spec stop start); [|lia]. by rewrite Hr.
    + by rewrite Hpc.
    + by rewrite Hpc.
  - unfold thread_step. rewrite Ht, lookup_nil. done.
  - done.
Qed.

Lemma elsewhere_only_app (s1 s2 : list event) (fs : filesystem) :
  elsewhere_only (s1 ++ s2) fs = elsewhere_only s2 (elsewhere_only s1 fs).
Proof.
  revert fs. induction s1 as [|[|t|f] s1 IH]; intros fs; simpl; auto.
Qed.

Lemma steps_idle (start : Z) (sched : list event) (w : world) (k : nat) :
  idle_at start w k ->
  idle_at start (fold_left (step frames dst fast) sched w) (coordinator_moves sched + k) /\
  w_fs (fold_left (step frames dst fast) sched w) = elsewhere_only sched (w_fs w).
Proof.
  revert w k. induction sched as [|e sched IH]; intros w k Hw; [done|].
  destruct (step_idle start w e k Hw) as [H1 H2].
  destruct (IH _ _ H1) as [H3 H4]. simpl fold_left. split.
  - replace (coordinator_moves (e :: sched) + k)%nat
      with (coordinator_moves sched + (coordinator_moves [e] + k))%nat;
      [done|]. destruct e; simpl; lia.
  - rewrite H4, H2. by destruct e.
Qed.

(** C10: with fewer than two frames, at every point of every execution
    of [optflow] no claim has been attempted, no thread exists, the
    files are as the other processes left them, the coordinating thread
    has not raised, and after two of its moves it has returned. *)
Theorem fewer_than_two_frames (start : Z) (sched : list event)
    (fs : filesystem) :
  (length frames < 2)%nat ->
  let w := optflow start frames dst fast sched fs in
  w_attempts w = [] /\ w_threads w = [] /\
  w_fs w = elsewhere_only sched fs /\
  (w_pc w = AtLoop start (start + Z.of_nat (length frames) - 1) \/
   w_pc w = AtJoin [] \/ w_pc w = Returned) /\
  ((2 <= coordinator_moves sched)%nat -> w_pc w = Returned).
Proof.
  intros Hn w.
  assert (H0 : idle_at start (optflow_init start frames fs) 0).
  { repeat split. eexists. split; [|done]. lia. }
  destruct (steps_idle start sched _ _ H0) as [(Ha & Ht & _ & Hpc) Hfs].
  fold (optflow start frames dst fast sched fs) in *. fold w in Ha, Ht, Hpc, Hfs.
  split; [done|]. split; [done|]. split; [done|].
  rewrite Nat.add_0_r in Hpc.
  destruct (coordinator_moves sched) as [|[|k]] eqn:Hk.
  - split; [|lia]. left.
    destruct Hpc as (stop & _ & Hpc).
    assert (Htr : trace_inv start (length frames) w)
      by apply steps_trace, init_trace.
    unfold trace_inv in Htr. rewrite Hpc in Htr.
    destruct Htr as (-> & _). done.
  - split; [auto|lia].
  - split; [auto|done].
Qed.
End Loop.

(** ** The race for one index *)

Section RaceProofs.
Import PyStr PyPath PathFacts Race.
Variables (idx : Z) (dst : Path).

Lemma claimant_step_cases (c : claimant) (fs : filesystem) :
  claimant_step idx dst c fs =
    match c_pc c with
    | BeforeOpen =>
        match placeholder_path (E := c_env c) idx dst with
        | None => (at_pc c (Done (Raise TypeError)), fs)
        | Some p =>
            match fs !! p with
            | Some _ => (at_pc c (Done (Ok None)), fs)
            | None =>
                if @denied (c_env c) p
                then (at_pc c (Done (Raise PermissionError)), fs)
                else (at_pc c (Created p), <[p := []]> fs)
            end
        end
    | Created q =>
        (at_pc c (Done (claimed idx dst (c_env c))),
         alter (fun old => (old ++ placeholder_text (E := c_env c))%list) q fs)
    | Done _ => (c, fs)
    end.
Proof.
  unfold claimant_step, placeholder_path, claimed, frame_path.
  destruct (c_pc c) as [|q|r]; [| |done].
  - unfold format_or_raise.
    destruct (percent _ idx) as [stem|]; simpl; [|done].
    unfold open_x. destruct (fs !! _); [done|]. by destruct (denied _).
  - unfold except_FileExistsError, bind, write, format_or_raise, ret.
    destruct (percent FRAME_NAME idx); simpl; [|done].
    by destruct (percent FRAME_NAME (idx + 1)).
Qed.

(** Two steps of a claimant on its own are [claim_job]. *)
Lemma claim_job_two_steps (c : claimant) (fs : filesystem) :
  fresh c = true ->
  let '(c1, fs1) := claimant_step idx dst c fs in
  let '(c2, fs2) := claimant_step idx dst c1 fs1 in
  exists r, c_pc c2 = Done r /\
            claim_job (E := c_env c) idx (c_frames c) dst fs = (r, fs2).
Proof.
  unfold fresh. intros Hc. rewrite claimant_step_cases.
  destruct (c_pc c); try done.
  destruct (placeholder_path idx dst) as [p|] eqn:Hp.
  - rewrite (claim_job_cases _ _ _ _ _ Hp).
    destruct (fs !! p) eqn:Hfs; [by eexists|].
    destruct (@denied (c_env c) p); [by eexists|].
    rewrite claimant_step_cases. simpl. rewrite create_then_write.
    eexists. split; [done|]. unfold claimed.
    by destruct (frame_path (E := c_env c) idx dst),
                (frame_path (E := c_env c) (idx + 1) dst).
  - rewrite claim_job_unformatted by done. by eexists.
Qed.

Lemma claimant_step_env (c : claimant) (fs : filesystem) :
  c_env (claimant_step idx dst c fs).1 = c_env c.
Proof.
  rewrite claimant_step_cases.
  destruct (c_pc c); [|done..].
  destruct (placeholder_path idx dst) as [p|]; [|done].
  destruct (fs !! p); [done|]. by destruct (@denied (c_env c) p).
Qed.

Lemma claimant_step_grows (c : claimant) (fs : filesystem) (p : string) :
  is_Some (fs !! p) -> is_Some ((claimant_step idx dst c fs).2 !! p).
Proof.
  intros Hp. rewrite claimant_step_cases.
  destruct (c_pc c) as [|q|r]; [| |done].
  - destruct (placeholder_path idx dst) as [p'|]; [|done].
    destruct (fs !! p') eqn:Hfs; [done|].
    destruct (@denied (c_env c) p'); [done|]. simpl.
    rewrite lookup_insert_ne; [done|]. intros ->.
    rewrite Hfs in Hp. by destruct Hp.
  - simpl. destruct (decide (q = p)) as [->|Hne].
    + rewrite lookup_alter_eq. destruct Hp as [x ->]. by eexists.
    + by rewrite lookup_alter_ne.
Qed.

(** A claimant becomes a holder only by creating the placeholder. *)
Lemma claimant_step_holder (c : claimant) (fs : filesystem) :
  holder (claimant_step idx dst c fs).1 = true ->
  holder c = true \/
  exists p, placeholder_path (E := c_env c) idx dst = Some p /\
            fs !! p = None /\
            (claimant_step idx dst c fs).2 = <[p := []]> fs /\
            c_pc (claimant_step idx dst c fs).1 = Created p.
Proof.
  rewrite claimant_step_cases.
  destruct (c_pc c) as [|q|r] eqn:Hc;
    [|intros _; left; unfold holder; by rewrite Hc|by left].
  destruct (placeholder_path idx dst) as [p|]; [|done].
  destruct (fs !! p) eqn:Hfs; [done|].
  destruct (@denied (c_env c) p); [done|]. intros _. right. by exists p.
Qed.

Lemma claimant_step_created (c : claimant) (fs : filesystem) (q : string) :
  c_pc (claimant_step idx dst c fs).1 = Created q ->
  placeholder_path (E := c_env c) idx dst = Some q.
Proof.
  rewrite claimant_step_cases.
  destruct (c_pc c) as [|q'|r] eqn:Hc; [|done|].
  - destruct (placeholder_path idx dst) as [p|]; [|done].
    destruct (fs !! p) eqn:Hfs; [done|].
    destruct (@denied (c_env c) p); [done|]. simpl. by intros [= ->].
  - simpl. by rewrite Hc.
Qed.

Lemma race_step_inv (P : option string) (w : filesystem * list claimant)
    (i : nat) :
  race_inv idx dst P w -> race_inv idx dst P (race_step idx dst w i).
Proof.
  destruct w as [fs cs]. intros (Ha & Hb & Hc). unfold race_step. simpl in *.
  destruct (cs !! i) as [c|] eqn:Hi; [|done].
  pose proof (claimant_step_env c fs) as Henv.
  pose proof (claimant_step_grows c fs) as Hgrow.
  pose proof (claimant_step_holder c fs) as Hhold.
  pose proof (claimant_step_created c fs) as Hcre.
  destruct (claimant_step idx dst c fs) as [c' fs']. simpl in *.
  assert (Hlen : (i < length cs)%nat) by (by eapply lookup_lt_Some).
  assert (Hsame : forall j cj, <[i := c']> cs !! j = Some cj ->
            (j = i /\ cj = c') \/ (j <> i /\ cs !! j = Some cj)).
  { intros j cj Hj. destruct (decide (j = i)) as [->|Hne].
    - rewrite list_lookup_insert_eq in Hj by done. left. by injection Hj.
    - rewrite list_lookup_insert_ne in Hj by done. by right. }
  assert (Hold : forall j cj, <[i := c']> cs !! j = Some cj ->
            holder cj = true ->
            (exists ck, cs !! j = Some ck /\ holder ck = true) \/
            (j = i /\ holder c = false /\
             exists p, P = Some p /\ fs !! p = None /\
                       fs' = <[p := []]> fs /\ c_pc cj = Created p)).
  { intros j cj Hj Hh. destruct (Hsame j cj Hj) as [[-> ->]|[Hne Hj']].
    - destruct (holder c) eqn:Hhc; [left; by exists c|].
      destruct (Hhold Hh) as [?|(p & Hp & Hfs & -> & Hpc)]; [done|].
      right. repeat split; [done..|]. exists p.
      rewrite <- (Ha i c Hi), Hp. done.
    - left. by exists cj. }
  repeat split.
  - intros j cj Hj. destruct (Hsame j cj Hj) as [[-> ->]|[Hne Hj']].
    + rewrite Henv. eauto.
    + eauto.
  - intros j cj Hj Hh.
    destruct (Hold j cj Hj Hh) as [(ck & Hk & Hhk)|(-> & _ & p & HP & Hfs & -> & Hpc)].
    + destruct (Hb j ck Hk Hhk) as (p & HP & Hsome & Hq).
      exists p. split; [done|]. split; [auto|].
      intros q Hq'. destruct (Hsame j cj Hj) as [[-> ->]|[Hne Hj']].
      * apply Hcre in Hq'. rewrite (Ha i c Hi), HP in Hq'. by injection Hq'.
      * rewrite Hj' in Hk. injection Hk as ->. auto.
    + exists p. split; [done|]. simpl. rewrite lookup_insert_eq.
      split; [by eexists|]. intros q Hq. rewrite Hpc in Hq. by injection Hq.
  - intros j k cj ck Hj Hk Hhj Hhk.
    destruct (Hold j cj Hj Hhj) as [(cj' & Hj' & Hhj')|(-> & Hnc & p & HP & Hfs & -> & Hpc)];
    destruct (Hold k ck Hk Hhk)
      as [(ck' & Hk' & Hhk')|(-> & Hnc' & p' & HP' & Hfs' & Hfs'' & Hpc')];
      try done.
    + eauto.
    + destruct (Hb j cj' Hj' Hhj') as (p & HP & [x Hx] & _).
      rewrite HP in HP'. injection HP' as ->. congruence.
    + destruct (Hb k ck' Hk' Hhk') as (p' & HP' & [x Hx] & _).
      rewrite HP in HP'. injection HP' as ->. congruence.
Qed.

Lemma claimant_step_result (c : claimant) (fs : filesystem) :
  claimable (E := c_env c) idx dst ->
  (finished c = true -> succeeded c = true \/ no_job c = true) ->
  finished (claimant_step idx dst c fs).1 = true ->
  succeeded (claimant_step idx dst c fs).1 = true \/
  no_job (claimant_step idx dst c fs).1 = true.
Proof.
  intros (p & Hp & Hd & [s Hs] & [e He]) Hold.
  rewrite claimant_step_cases. unfold finished in Hold.
  destruct (c_pc c) as [|q|r] eqn:Hc.
  - rewrite Hp. destruct (fs !! p); [by right|]. by rewrite Hd.
  - intros _. left. unfold succeeded, claimed. simpl. by rewrite Hs, He.
  - intros _. simpl. apply Hold. done.
Qed.

Lemma claimant_step_keeps (c : claimant) (fs : filesystem) :
  claimable (E := c_env c) idx dst ->
  holder c = true -> holder (claimant_step idx dst c fs).1 = true.
Proof.
  intros (p & Hp & Hd & [s Hs] & [e He]).
  rewrite claimant_step_cases. unfold holder at 1.
  destruct (c_pc c) as [|q|r] eqn:Hc; [done| |].
  - intros _. unfold holder, claimed. simpl. by rewrite Hs, He.
  - intros H. unfold holder. simpl. by rewrite Hc.
Qed.

Lemma claimant_step_first (c : claimant) (fs : filesystem) (p : string) :
  claimable (E := c_env c) idx dst ->
  placeholder_path (E := c_env c) idx dst = Some p ->
  fresh c = true -> fs !! p = None ->
  holder (claimant_step idx dst c fs).1 = true.
Proof.
  intros (p' & Hp' & Hd & _) Hp Hf Hfs. rewrite Hp in Hp'.
  injection Hp' as <-. rewrite claimant_step_cases. unfold fresh in Hf.
  destruct (c_pc c); [|done..]. by rewrite Hp, Hfs, Hd.
Qed.

Lemma lookup_insert_split (cs : list claimant) (i j : nat) (c c' cj : claimant) :
  cs !! i = Some c -> <[i := c']> cs !! j = Some cj ->
  (j = i /\ cj = c') \/ (j <> i /\ cs !! j = Some cj).
Proof.
  intros Hi Hj. destruct (decide (j = i)) as [->|Hne].
  - rewrite list_lookup_insert_eq in Hj by (by eapply lookup_lt_Some).
    left. by injection Hj.
  - rewrite list_lookup_insert_ne in Hj by done. by right.
Qed.

Lemma race_step_live (w : filesystem * list claimant) (i : nat) :
  race_live idx dst w -> race_live idx dst (race_step idx dst w i).
Proof.
  destruct w as [fs cs]. intros [H1 H2]. unfold race_step. simpl in *.
  destruct (cs !! i) as [c|] eqn:Hi; [|done].
  pose proof (claimant_step_env c fs) as Henv.
  pose proof (claimant_step_result c fs (H1 i c Hi) (H2 i c Hi)) as Hres.
  destruct (claimant_step idx dst c fs) as [c' fs']. simpl in *.
  split; intros j cj Hj;
    destruct (lookup_insert_split _ _ _ _ _ _ Hi Hj) as [[-> ->]|[Hne Hj']];
    eauto.
  rewrite Henv. eauto.
Qed.

Lemma race_step_won (p : string) (w : filesystem * list claimant) (i : nat) :
  race_inv idx dst (Some p) w -> race_live idx dst w ->
  race_won p w -> race_won p (race_step idx dst w i).
Proof.
  destruct w as [fs cs]. intros (Ha & _) [H1 _] Hw.
  unfold race_won, race_step in *. simpl in *.
  destruct (cs !! i) as [c|] eqn:Hi; [|done].
  pose proof (claimant_step_keeps c fs (H1 i c Hi)) as Hkeep.
  pose proof (claimant_step_first c fs p (H1 i c Hi) (Ha i c Hi)) as Hfirst.
  destruct (claimant_step idx dst c fs) as [c' fs']. simpl in *.
  assert (Hlen : (i < length cs)%nat) by (by eapply lookup_lt_Some).
  right. destruct Hw as [[Hfresh Hfs]|(k & ck & Hk & Hh)].
  - exists i, c'. rewrite list_lookup_insert_eq by done. eauto.
  - destruct (decide (k = i)) as [->|Hne].
    + exists i, c'. rewrite list_lookup_insert_eq by done.
      rewrite Hi in Hk. injection Hk as ->. auto.
    + exists k, ck. by rewrite list_lookup_insert_ne.
Qed.

Lemma race_step_length (w : filesystem * list claimant) (i : nat) :
  length (race_step idx dst w i).2 = length w.2.
Proof.
  unfold race_step. destruct (w.2 !! i) as [c|]; [|done].
  destruct (claimant_step idx dst c w.1). simpl. apply length_insert.
Qed.

Lemma race_induction (Q : filesystem * list claimant -> Prop)
    (sched : list nat) (w : filesystem * list claimant) :
  (forall w i, Q w -> Q (race_step idx dst w i)) ->
  Q w -> Q (fold_left (race_step idx dst) sched w).
Proof.
  intros Hstep. revert w. induction sched as [|i sched IH]; [done|].
  intros w Hw. simpl. by apply IH, Hstep.
Qed.

Lemma holder_of_succeeded (c : claimant) :
  succeeded c = true -> holder c = true.
Proof. unfold succeeded, holder. by destruct (c_pc c) as [| |[[]|]]. Qed.

Lemma fresh_not_holder (c : claimant) : fresh c = true -> holder c = false.
Proof. unfold fresh, holder. by destruct (c_pc c). Qed.

(** C1: claimants of one index that derive the same placeholder path,
    scheduled in any order: at most one succeeds; when no claim can
    raise, every finished claimant that did not succeed has "no job";
    and when moreover the placeholder was absent and all have finished,
    one has succeeded. *)
Theorem one_claim_wins (P : option string) (cs : list claimant)
    (sched : list nat) (fs : filesystem) :
  (forall c, In c cs ->
     fresh c = true /\ placeholder_path (E := c_env c) idx dst = P) ->
  let w := race idx dst sched fs cs in
  (forall i j ci cj, w.2 !! i = Some ci -> w.2 !! j = Some cj ->
     succeeded ci = true -> succeeded cj = true -> i = j) /\
  ((forall c, In c cs -> claimable (E := c_env c) idx dst) ->
   (forall j cj, w.2 !! j = Some cj -> finished cj = true ->
      succeeded cj = true \/ no_job cj = true) /\
   (forall p, P = Some p -> fs !! p = None -> cs <> [] ->
      (forall j cj, w.2 !! j = Some cj -> finished cj = true) ->
      exists i ci, w.2 !! i = Some ci /\ succeeded ci = true)).
Proof.
  intros Hcs w.
  assert (Hin : forall i c, cs !! i = Some c -> In c cs).
  { intros i c Hi. apply list_elem_of_In. by eapply list_elem_of_lookup_2. }
  assert (Hinv0 : race_inv idx dst P (fs, cs)).
  { repeat split; simpl.
    - intros i c Hi. by apply Hcs, (Hin i).
    - intros i c Hi Hh.
      destruct (Hcs c (Hin i c Hi)) as [Hf%fresh_not_holder _]. congruence.
    - intros i j ci cj Hi _ Hh.
      destruct (Hcs ci (Hin i ci Hi)) as [Hf%fresh_not_holder _]. congruence. }
  assert (Hinv : race_inv idx dst P w).
  { apply (race_induction (race_inv idx dst P)); [|done].
    intros. by apply race_step_inv. }
  split.
  { destruct Hinv as (_ & _ & Huniq). intros i j ci cj Hi Hj Hsi Hsj.
    eapply Huniq; eauto using holder_of_succeeded. }
  intros Hclaim.
  assert (Hlive0 : race_live idx dst (fs, cs)).
  { split; simpl; intros i c Hi; [by apply Hclaim, (Hin i)|].
    destruct (Hcs c (Hin i c Hi)) as [Hf _]. unfold fresh, finished in *.
    by destruct (c_pc c). }
  assert (Hlive : race_live idx dst w).
  { apply (race_induction (race_live idx dst)); [|done].
    intros. by apply race_step_live. }
  split; [apply Hlive|].
  intros p -> Hfs Hne Hall.
  assert (Hwon : race_won p w).
  { apply (race_induction (fun w => race_inv idx dst (Some p) w /\
                                    race_live idx dst w /\ race_won p w)).
    - intros w' i (? & ? & ?).
      split; [by apply race_step_inv|].
      split; [by apply race_step_live|]. by apply race_step_won.
    - split; [done|]. split; [done|]. left. split; [|done].
      intros i c Hi. by apply Hcs, (Hin i). }
  assert (Hlen : length w.2 = length cs).
  { apply (race_induction (fun w => length w.2 = length cs)); [|done].
    intros w' i Hw'. by rewrite race_step_length. }
  destruct Hwon as [[Hfresh _]|(i & ci & Hi & Hh)].
  - destruct cs as [|c0 cs']; [done|].
    destruct (w.2) as [|c1 l] eqn:Hw2; [done|].
    specialize (Hfresh O c1 eq_refl). specialize (Hall O c1 eq_refl).
    unfold fresh, finished in *. by destruct (c_pc c1).
  - exists i, ci. split; [done|]. specialize (Hall i ci Hi).
    unfold holder, finished, succeeded in *. by destruct (c_pc ci) as [| |[[]|]].
Qed.
End RaceProofs.

(** ** The effects of a claim and of a job *)

Section ClaimEffects.
Import PyStr PyPath PathFacts Numpy.
Context {E : environment}.

(** X1: what [claim_job] does to the files.  It touches no path but
    the placeholder and changes no file that exists; when it returns
    the names, the placeholder did not exist, the files afterwards are
    the files before with the placeholder holding this host's text, and
    the names are the paths of the frames [idx] and [idx + 1]. *)
Theorem claim_job_effect (idx : Z) (frames : list string) (dst : Path)
    (fs fs' : filesystem) (r : result (option (string * string))) :
  claim_job idx frames dst fs = (r, fs') ->
  (forall q, placeholder_path idx dst <> Some q -> fs' !! q = fs !! q) /\
  (forall q, is_Some (fs !! q) -> fs' !! q = fs !! q) /\
  (forall names, r = Ok (Some names) ->
     exists p, placeholder_path idx dst = Some p /\ fs !! p = None /\
               fs' = <[p := placeholder_text]> fs /\
               frame_path idx dst = Some names.1 /\
               frame_path (idx + 1) dst = Some names.2).
Proof.
  destruct (placeholder_path idx dst) as [p|] eqn:Hp.
  - rewrite (claim_job_cases _ _ _ _ _ Hp).
    destruct (fs !! p) eqn:Hfs.
    { intros [= <- <-]. by repeat split. }
    destruct (denied p).
    { intros [= <- <-]. by repeat split. }
    assert (Hother : forall q, Some p <> Some q ->
              <[p := placeholder_text]> fs !! q = fs !! q).
    { intros q Hq. apply lookup_insert_ne. congruence. }
    assert (Hkeep : forall q, is_Some (fs !! q) ->
              <[p := placeholder_text]> fs !! q = fs !! q).
    { intros q [x Hx]. apply lookup_insert_ne. congruence. }
    destruct (frame_path idx dst) as [s|];
      [destruct (frame_path (idx + 1) dst) as [e|]|];
      intros [= <- <-]; repeat split; try done.
    intros names [= <-]. by exists p.
  - rewrite claim_job_unformatted by done. intros [= <- <-]. by repeat split.
Qed.

(** X2: [write_flow] raises [PermissionError] and writes nothing when
    the file may not be written; otherwise it replaces the file, and
    the new content has 12 bytes of header and 4 bytes for every item
    of the flow. *)
Theorem write_flow_effect (fname : string) (flow : ndarray) (fs : filesystem) :
  (denied fname = true ->
   write_flow fname flow fs = (Raise PermissionError, fs)) /\
  (denied fname = false ->
   exists content,
     write_flow fname flow fs = (Ok tt, <[fname := content]> fs) /\
     length content = (12 + 4 * (dim0 flow * dim1 flow * dim2 flow))%nat).
Proof.
  rewrite write_flow_cases. split; intros ->; [done|].
  eexists. split; [done|]. unfold flo_bytes.
  rewrite !length_app, !length_word32_bytes. unfold float32_tobytes.
  rewrite !(length_flat_map_uniform _ _ 4)
    by (intros; apply length_word32_bytes).
  rewrite length_ravel. simpl. lia.
Qed.
End ClaimEffects.

Section FarnebackEffects.
Import PyStr PyPath PathFacts Numpy.
Context {E : environment}.

(** X3: [farneback] touches the two flow files only.  When it
    returns, both hold flows; when it raises, either nothing was
    written (an image that does not load, a flow that is not computed,
    a forward file that may not be written), or the backward file may
    not be written and the forward file is left behind. *)
Theorem farneback_effect (start_name end_name fwd bwd : string)
    (fs fs' : filesystem) (r : result unit) :
  farneback start_name end_name fwd bwd fs = (r, fs') ->
  (forall q, q <> fwd -> q <> bwd -> fs' !! q = fs !! q) /\
  (r = Ok tt ->
   exists f b, fs' = <[bwd := flo_bytes b]> (<[fwd := flo_bytes f]> fs)) /\
  (forall err, r = Raise err ->
     (err = cv2_error /\ fs' = fs) \/
     (err = PermissionError /\ denied fwd = true /\ fs' = fs) \/
     (err = PermissionError /\ denied bwd = true /\
      exists f, fs' = <[fwd := flo_bytes f]> fs)).
Proof.
  unfold farneback, bind, imread, cvtColor, cv2_or_raise.
  destruct ((fs !! start_name ≫= imdecode) ≫= cvtColor_BGR2GRAY) as [g1|];
    simpl;
    [|intros [= <- <-]; split; [done|split; [done|intros err [= <-]; auto]]].
  destruct ((fs !! end_name ≫= imdecode) ≫= cvtColor_BGR2GRAY) as [g2|];
    simpl;
    [|intros [= <- <-]; split; [done|split; [done|intros err [= <-]; auto]]].
  destruct (calcOpticalFlowFarneback g1 g2) as [f|];
    simpl;
    [|intros [= <- <-]; split; [done|split; [done|intros err [= <-]; auto]]].
  destruct (calcOpticalFlowFarneback g2 g1) as [b|];
    simpl;
    [|intros [= <- <-]; split; [done|split; [done|intros err [= <-]; auto]]].
  rewrite write_flow_cases. destruct (denied fwd) eqn:Hf.
  { intros [= <- <-]. repeat split; [done..|]. intros err [= <-]. auto. }
  rewrite write_flow_cases. destruct (denied bwd) eqn:Hb.
  - intros [= <- <-]. split; [|split; [done|]].
    + intros q Hq _. by apply lookup_insert_ne.
    + intros err [= <-]. right. right. eauto.
  - intros [= <- <-]. split; [|split; [eauto|done]].
    intros q Hq1 Hq2. by rewrite !lookup_insert_ne.
Qed.

(** X4: the fast job when all goes well.  If both frames load, both
    flows are computed, the flow files may be written and the
    consistency check writes the reliability map, then [run_job]
    returns, and the files afterwards are the files before without the
    forward flow, with the backward flow and with the reliability
    map. *)
Theorem run_job_fast_outputs (idx : Z) (start_name end_name : string)
    (dst : Path) (fs : filesystem) (g1 g2 : image) (f b : ndarray)
    (data out : list byte) (rc : Z) :
  (fs !! start_name ≫= imdecode) ≫= cvtColor_BGR2GRAY = Some g1 ->
  (fs !! end_name ≫= imdecode) ≫= cvtColor_BGR2GRAY = Some g2 ->
  calcOpticalFlowFarneback g1 g2 = Some f ->
  calcOpticalFlowFarneback g2 g1 = Some b ->
  denied (forward_path idx dst) = false ->
  denied (backward_path idx dst) = false ->
  (let fs1 := <[backward_path idx dst := flo_bytes b]>
                (<[forward_path idx dst := flo_bytes f]> fs) in
   exec (tool CONSISTENCY_CHECK)
     [backward_path idx dst; forward_path idx dst; reliable_path idx dst;
      end_name] [] fs1
   = Some (mk_completed (<[reliable_path idx dst := data]> fs1) out rc)) ->
  run_job idx start_name end_name dst true fs =
    (Ok tt,
     <[reliable_path idx dst := data]>
       (<[backward_path idx dst := flo_bytes b]>
          (delete (forward_path idx dst) fs))).
Proof.
  intros H1 H2 Hf Hb Hdf Hdb Hcheck.
  unfold run_job, bind, farneback, bind, imread, cvtColor, cv2_or_raise.
  rewrite H1. simpl. rewrite H2. simpl. rewrite Hf. simpl. rewrite Hb. simpl.
  rewrite !write_flow_cases, Hdf. rewrite write_flow_cases, Hdb.
  unfold subprocess_run. simpl in Hcheck. rewrite Hcheck. simpl.
  unfold os_remove.
  pose proof (forward_ne_backward idx dst) as Hfb.
  pose proof (forward_ne_reliable idx dst) as Hfr.
  rewrite lookup_insert_ne, lookup_insert_ne, lookup_insert_eq, Hdf by done.
  f_equal.
  rewrite delete_insert_ne, delete_insert_ne by done.
  by rewrite delete_insert_eq.
Qed.
End FarnebackEffects.

Section DeepflowEffects.
Import PyStr PyPath PathFacts Numpy.
Context {E : environment}.

(** X5: the default job when the tools do what they are for.  If the
    matcher writes no file, the flow program writes its output file and
    the consistency check writes the reliability map, then [run_job]
    returns without looking at the frames, the forward flow is gone,
    the backward flow and the reliability map exist, and no other path
    has changed. *)
Theorem run_job_default_outputs (idx : Z) (start_name end_name : string)
    (dst : Path) (fs : filesystem) :
  matcher_reads_only -> flow_writes_output -> check_writes_output ->
  denied (forward_path idx dst) = false ->
  exists fs' : filesystem,
    run_job idx start_name end_name dst false fs = (Ok tt, fs') /\
    fs' !! forward_path idx dst = None /\
    is_Some (fs' !! backward_path idx dst) /\
    is_Some (fs' !! reliable_path idx dst) /\
    forall q, q <> forward_path idx dst -> q <> backward_path idx dst ->
              q <> reliable_path idx dst -> fs' !! q = fs !! q.
Proof.
  intros Hm Hf Hc Hd.
  pose proof (forward_ne_backward idx dst) as Hfb.
  pose proof (forward_ne_reliable idx dst) as Hfr.
  pose proof (backward_ne_reliable idx dst) as Hbr.
  unfold run_job, deepflow, bind, ret, subprocess_run.
  destruct (Hm [start_name; end_name; "-nt"; "0"; "-downscale"; "2"] [] fs)
    as (o1 & rc1 & ->). simpl.
  destruct (Hf start_name end_name (forward_path idx dst) o1 fs)
    as (d1 & o2 & rc2 & ->). simpl.
  destruct (Hm [end_name; start_name; "-nt"; "0"; "-downscale"; "2"] []
              (<[forward_path idx dst := d1]> fs)) as (o3 & rc3 & ->). simpl.
  destruct (Hf end_name start_name (backward_path idx dst) o3
              (<[forward_path idx dst := d1]> fs)) as (d2 & o4 & rc4 & ->).
  simpl.
  destruct (Hc (backward_path idx dst) (forward_path idx dst)
              (reliable_path idx dst) end_name
              (<[backward_path idx dst := d2]>
                 (<[forward_path idx dst := d1]> fs))) as (d3 & o5 & rc5 & ->).
  simpl. unfold os_remove.
  rewrite lookup_insert_ne, lookup_insert_ne, lookup_insert_eq, Hd by done.
  eexists. split; [done|]. split; [apply lookup_delete_eq|].
  rewrite !lookup_delete_ne by done.
  rewrite lookup_insert_ne, lookup_insert_eq by done.
  rewrite lookup_insert_eq.
  split; [by eexists|]. split; [by eexists|].
  intros q H1 H2 H3. rewrite lookup_delete_ne by done.
  by rewrite !lookup_insert_ne.
Qed.
End DeepflowEffects.

(** ** More about the loop *)

Section LoopThreads.
Import PyStr PyPath PathFacts Numpy.
Context {E : environment}.
Variables (dst : Path) (fast : bool).

Lemma coordinator_step_frames (f1 f2 : list string) (w : world) :
  coordinator_step f1 dst w = coordinator_step f2 dst w.
Proof. reflexivity. Qed.

(** X6: [optflow] uses [frames] for its length only: two lists of
    frames of the same length give the same execution. *)
Theorem optflow_counts_frames (start : Z) (f1 f2 : list string)
    (sched : list event) (fs : filesystem) :
  length f1 = length f2 ->
  optflow start f1 dst fast sched fs = optflow start f2 dst fast sched fs.
Proof.
  intros Hlen. unfold optflow, optflow_init. rewrite Hlen.
  generalize (mk_world fs (AtLoop start (start + Z.of_nat (length f2) - 1))
                [] [] []).
  induction sched as [|e sched IH]; intros w; [done|].
  simpl. rewrite IH. by destruct e.
Qed.

Lemma sublist_strongly_sorted (l1 l2 : list Z) :
  l1 `sublist_of` l2 -> StronglySorted Z.lt l2 -> StronglySorted Z.lt l1.
Proof.
  induction 1 as [|x l1 l2 Hs IH|x l1 l2 Hs IH]; intros Hl2; [done|..].
  - apply StronglySorted_inv in Hl2 as [Hl2 Hx].
    constructor; [auto|]. rewrite Forall_forall in Hx |- *.
    intros y Hy. apply Hx. by eapply elem_of_sublist.
  - apply StronglySorted_inv in Hl2 as [Hl2 _]. auto.
Qed.

Lemma strongly_sorted_take (l : list Z) (k : nat) :
  StronglySorted Z.lt l -> StronglySorted Z.lt (take k l).
Proof. apply sublist_strongly_sorted, sublist_take. Qed.

Lemma thread_idx_insert (l : list thread) (t : nat) (th th' : thread) :
  l !! t = Some th -> t_idx th' = t_idx th ->
  List.map t_idx (<[t := th']> l) = List.map t_idx l.
Proof.
  intros Ht Hi. change (List.map t_idx) with (fmap (M := list) t_idx).
  rewrite list_fmap_insert, Hi. apply list_insert_id.
  by rewrite list_lookup_fmap, Ht.
Qed.

Lemma claim_job_names (idx : Z) (frames : list string) (fs fs' : filesystem)
    (s e : string) :
  claim_job idx frames dst fs = (Ok (Some (s, e)), fs') ->
  frame_path idx dst = Some s /\ frame_path (idx + 1) dst = Some e.
Proof.
  destruct (placeholder_path idx dst) as [p|] eqn:Hp.
  - rewrite (claim_job_cases _ _ _ _ _ Hp).
    destruct (fs !! p); [done|]. destruct (denied p); [done|].
    destruct (frame_path idx dst); [|done].
    destruct (frame_path (idx + 1) dst); [|done]. by intros [= <- <- _].
  - by rewrite claim_job_unformatted.
Qed.

Lemma step_threads (frames : list string) (w : world) (e : event) :
  threads_inv dst w -> threads_inv dst (step frames dst fast w e).
Proof.
  intros [Hsub Hnames]. destruct e as [|t|f]; simpl; [| |done].
  - unfold coordinator_step.
    destruct (w_pc w) as [idx stop|[|t rest]| |err]; try done.
    + destruct (stop <=? idx); [done|].
      destruct (MAX_OPTFLOW_JOBS <=? _); [done|].
      destruct (claim_job _ _ _ _) as [[[[s e]|]|err] fs'] eqn:Hclaim;
        try (split; simpl; [by apply sublist_inserts_r|done]).
      destruct (truthy s);
        [|split; simpl; [by apply sublist_inserts_r|done]].
      apply claim_job_names in Hclaim as [Hs He].
      split; simpl.
      * rewrite map_app. by apply sublist_app.
      * intros t th [Ht|[_ Ht]]%lookup_app_Some; [eauto|].
        destruct (t - length (w_threads w))%nat; [|done].
        simpl in Ht. by injection Ht as <-.
    + by destruct (isAlive _ _).
  - unfold thread_step.
    destruct (w_threads w !! t) as [[i s e [|r]]|] eqn:Ht; [|done..].
    destruct (run_job i s e dst fast (w_fs w)) as [r fs']. split; simpl.
    + by rewrite (thread_idx_insert _ _ _ _ Ht).
    + intros t' th Hth. destruct (decide (t' = t)) as [->|Hne].
      * rewrite list_lookup_insert_eq in Hth by (by eapply lookup_lt_Some).
        injection Hth as <-. apply (Hnames t _ Ht).
      * rewrite list_lookup_insert_ne in Hth by done. eauto.
Qed.

Lemma steps_threads (frames : list string) (sched : list event) (w : world) :
  threads_inv dst w ->
  threads_inv dst (fold_left (step frames dst fast) sched w).
Proof.
  revert w. induction sched as [|e sched IH]; [done|].
  intros w Hw. simpl. by apply IH, step_threads.
Qed.

(** X7: at every point of every execution of [optflow], every thread
    was started for an index that was attempted, with the paths of the
    frames [idx] and [idx + 1] under [dst]; the threads were started in
    increasing order of their indices, and there are no more threads
    than attempts. *)
Theorem threads_follow_claims (start : Z) (frames : list string)
    (sched : list event) (fs : filesystem) :
  let w := optflow start frames dst fast sched fs in
  (forall t th, w_threads w !! t = Some th ->
     In (t_idx th) (w_attempts w) /\
     frame_path (t_idx th) dst = Some (t_start th) /\
     frame_path (t_idx th + 1) dst = Some (t_end th)) /\
  StronglySorted Z.lt (List.map t_idx (w_threads w)) /\
  (length (w_threads w) <= length (w_attempts w))%nat.
Proof.
  intros w.
  assert (Hinv : threads_inv dst w).
  { apply steps_threads. split; [done|]. by intros [|t] th. }
  destruct Hinv as [Hsub Hnames].
  split; [|split].
  - intros t th Ht. split; [|by apply (Hnames t)].
    apply list_elem_of_In. eapply elem_of_sublist; [|done].
    change (List.map t_idx) with (fmap (M := list) t_idx).
    apply list_elem_of_fmap. exists th. split; [done|].
    by eapply list_elem_of_lookup_2.
  - apply (sublist_strongly_sorted _ _ Hsub).
    destruct (trace_prefix start (length frames) w) as [k ->].
    { apply steps_trace, init_trace. }
    apply strongly_sorted_take, claim_indices_sorted.
  - apply sublist_length in Hsub. by rewrite length_map in Hsub.
Qed.

Local Arguments Nat.leb : simpl never.
Local Arguments Nat.eqb : simpl never.

Lemma step_skipping (start : Z) (frames : list string) (fs : filesystem)
    (w : world) (e : event) (k : nat) :
  1 <= MAX_OPTFLOW_JOBS ->
  all_claimed start (length frames) dst fs ->
  undisturbed [e] = true ->
  skipping_at start (length frames) fs w k ->
  skipping_at start (length frames) fs (step frames dst fast w e)
    (coordinator_moves [e] + k).
Proof.
  intros Hmax Hall He (Hfs & Hth & Hrun & Hpc).
  destruct e as [|t|f]; simpl; [| |done].
  - unfold coordinator_step, skipping_at. rewrite Hpc.
    destruct (Nat.leb_spec k (length frames - 1)) as [Hk|Hk].
    + destruct (Z.leb_spec (start + Z.of_nat (length frames) - 1)
                  (start + Z.of_nat k)) as [Hend|Hmore].
      * simpl. rewrite Hrun.
        destruct (Nat.leb_spec (S k) (length frames - 1)); [lia|].
        destruct (Nat.eqb_spec (S k) (length frames - 1 + 1)); [done|lia].
      * rewrite Hrun. simpl.
        destruct (Z.leb_spec MAX_OPTFLOW_JOBS (Z.of_nat 0)); [lia|].
        destruct (Hall (start + Z.of_nat k + 1)) as (p & Hp & [x Hx]); [lia|].
        rewrite (claim_job_cases _ _ _ _ _ Hp), Hfs, Hx. simpl.
        destruct (Nat.leb_spec (S k) (length frames - 1)); [|lia].
        repeat split; try done. f_equal. lia.
    + destruct (Nat.eqb_spec k (length frames - 1 + 1)) as [->|Hne].
      * simpl. destruct (Nat.leb_spec (S (length frames - 1 + 1))
                           (length frames - 1)); [lia|].
        destruct (Nat.eqb_spec (S (length frames - 1 + 1))
                    (length frames - 1 + 1)); [lia|done].
      * simpl. destruct (Nat.leb_spec (S k) (length frames - 1)); [lia|].
        destruct (Nat.eqb_spec (S k) (length frames - 1 + 1)); [lia|done].
  - unfold thread_step. by rewrite Hth.
Qed.

Lemma steps_skipping (start : Z) (frames : list string) (fs : filesystem)
    (sched : list event) (w : world) (k : nat) :
  1 <= MAX_OPTFLOW_JOBS ->
  all_claimed start (length frames) dst fs ->
  undisturbed sched = true ->
  skipping_at start (length frames) fs w k ->
  skipping_at start (length frames) fs
    (fold_left (step frames dst fast) sched w) (coordinator_moves sched + k).
Proof.
  intros Hmax Hall. revert w k.
  induction sched as [|e sched IH]; intros w k Hu Hw; [done|].
  simpl in Hu. apply andb_true_iff in Hu as [He Hu].
  assert (He' : undisturbed [e] = true) by (simpl; by rewrite He).
  pose proof (step_skipping start frames fs w e k Hmax Hall He' Hw) as Hstep.
  specialize (IH _ _ Hu Hstep). simpl fold_left.
  replace (coordinator_moves (e :: sched) + k)%nat
    with (coordinator_moves sched + (coordinator_moves [e] + k))%nat;
    [done|]. destruct e; simpl; lia.
Qed.

(** X8: when every placeholder of the range exists and no other
    process changes the files, [optflow] leaves the files as they are
    and starts no thread, and once the coordinating thread has made
    [len(frames) - 1 + 2] moves it has returned after attempting every
    index. *)
Theorem claimed_range_is_skipped (start : Z) (frames : list string)
    (sched : list event) (fs : filesystem) :
  1 <= MAX_OPTFLOW_JOBS ->
  all_claimed start (length frames) dst fs ->
  undisturbed sched = true ->
  let w := optflow start frames dst fast sched fs in
  w_fs w = fs /\ w_threads w = [] /\
  ((length frames - 1 + 2 <= coordinator_moves sched)%nat ->
   w_pc w = Returned /\
   w_attempts w = claim_indices start (length frames)).
Proof.
  intros Hmax Hall Hu w.
  assert (H0 : skipping_at start (length frames) fs
                 (optflow_init start frames fs) 0).
  { repeat split. simpl. by rewrite Z.add_0_r. }
  destruct (steps_skipping start frames fs sched _ 0 Hmax Hall Hu H0)
    as (Hfs & Hth & _ & Hpc).
  fold (optflow start frames dst fast sched fs) in Hfs, Hth, Hpc.
  fold w in Hfs, Hth, Hpc.
  split; [done|]. split; [done|]. intros Hmoves.
  rewrite Nat.add_0_r in Hpc.
  destruct (Nat.leb_spec (coordinator_moves sched) (length frames - 1));
    [lia|].
  destruct (Nat.eqb_spec (coordinator_moves sched) (length frames - 1 + 1));
    [lia|].
  split; [done|].
  pose proof (steps_trace frames dst fast start (length frames) sched _
                (init_trace frames start fs)) as Htr.
  fold (optflow start frames dst fast sched fs) in Htr. fold w in Htr.
  unfold trace_inv in Htr. by rewrite Hpc in Htr.
Qed.

Lemma step_raised (frames : list string) (w : world) (e : event) (err : exn) :
  w_pc w = Raised err ->
  w_pc (step frames dst fast w e) = Raised err /\
  w_attempts (step frames dst fast w e) = w_attempts w /\
  w_running (step frames dst fast w e) = w_running w /\
  length (w_threads (step frames dst fast w e)) = length (w_threads w).
Proof.
  intros Hpc. destruct e as [|t|f]; simpl; [| |done].
  - unfold coordinator_step. by rewrite Hpc.
  - destruct (thread_step_confined dst fast t w) as (-> & -> & -> & _).
    by rewrite thread_step_length.
Qed.

(** X9: an exception of [claim_job] ends the loop of [optflow]: after
    it the coordinating thread attempts no further index and starts no
    further thread, whatever happens next (the threads started before
    run on). *)
Theorem raise_is_final (start : Z) (frames : list string)
    (sched more : list event) (fs : filesystem) (err : exn) :
  w_pc (optflow start frames dst fast sched fs) = Raised err ->
  let w := optflow start frames dst fast sched fs in
  let w' := optflow start frames dst fast (sched ++ more) fs in
  w_pc w' = Raised err /\ w_attempts w' = w_attempts w /\
  w_running w' = w_running w /\
  length (w_threads w') = length (w_threads w).
Proof.
  intros Hpc w w'. unfold w', optflow. rewrite fold_left_app.
  fold (optflow start frames dst fast sched fs). fold w.
  fold w in Hpc. clearbody w. clear w'.
  revert w Hpc. induction more as [|e more IH]; intros w Hpc; [done|].
  simpl. destruct (step_raised frames w e err Hpc) as (H1 & H2 & H3 & H4).
  destruct (IH _ H1) as (? & ? & ? & ?). repeat split; congruence.
Qed.
End LoopThreads.

(** ** More about the race *)

Section RaceText.
Import PyStr PyPath PathFacts Race RaceDefs.
Variables (idx : Z) (dst : Path).

Lemma race_step_text (p : string) (w : filesystem * list claimant) (i : nat) :
  race_inv idx dst (Some p) w -> race_text p w ->
  race_text p (race_step idx dst w i).
Proof.
  destruct w as [fs cs]. intros (Ha & Hb & Hu) Ht.
  unfold race_step, race_text in *. simpl in *.
  destruct (cs !! i) as [c|] eqn:Hi; [|done].
  destruct (claimant_step idx dst c fs) as [c' fs'] eqn:Hstep.
  rewrite claimant_step_cases in Hstep. simpl.
  assert (Hsplit : forall j cj, <[i := c']> cs !! j = Some cj ->
            (j = i /\ cj = c') \/ (j <> i /\ cs !! j = Some cj)).
  { intros j cj. by apply lookup_insert_split with c. }
  assert (Hnot : forall cj, holder cj = false ->
            (forall q, c_pc cj = Created q -> False) /\ succeeded cj = false).
  { intros cj. unfold holder, succeeded.
    destruct (c_pc cj) as [|q|[[n|]|e]]; done. }
  assert (Hquiet : (forall j cj, j <> i -> cs !! j = Some cj ->
                      holder cj = false) ->
            (forall q, c_pc c' = Created q -> fs' !! p = Some []) ->
            (succeeded c' = true ->
             fs' !! p = Some (placeholder_text (E := c_env c'))) ->
            forall j cj, <[i := c']> cs !! j = Some cj ->
              (forall q, c_pc cj = Created q -> fs' !! p = Some []) /\
              (succeeded cj = true ->
               fs' !! p = Some (placeholder_text (E := c_env cj)))).
  { intros Hno H1 H2 j cj [[-> ->]|[Hne Hj]]%Hsplit; [done|].
    destruct (Hnot cj (Hno j cj Hne Hj)) as [H3 H4].
    split; [intros q' Hq'; by destruct (H3 q')|by rewrite H4]. }
  assert (Hsame : fs' = fs -> holder c' = false ->
            forall j cj, <[i := c']> cs !! j = Some cj ->
              (forall q, c_pc cj = Created q -> fs' !! p = Some []) /\
              (succeeded cj = true ->
               fs' !! p = Some (placeholder_text (E := c_env cj)))).
  { intros -> Hh j cj [[-> ->]|[Hne Hj]]%Hsplit; [|by apply (Ht j)].
    destruct (Hnot c' Hh) as [H3 H4].
    split; [intros q' Hq'; by destruct (H3 q')|by rewrite H4]. }
  destruct (c_pc c) as [|q|r] eqn:Hc.
  - rewrite (Ha i c Hi) in Hstep.
    destruct (fs !! p) eqn:Hfs.
    { injection Hstep as <- <-. by apply Hsame. }
    destruct (denied p) eqn:Hd.
    { injection Hstep as <- <-. by apply Hsame. }
    injection Hstep as <- <-. apply Hquiet.
    + intros j cj Hne Hj. destruct (holder cj) eqn:Hh; [|done].
      destruct (Hb j cj Hj Hh) as (p' & [= <-] & [x Hx] & _). congruence.
    + intros q _. apply lookup_insert_eq.
    + done.
  - assert (Hh : holder c = true) by (unfold holder; by rewrite Hc).
    destruct (Hb i c Hi Hh) as (p' & [= <-] & _ & Hq).
    pose proof (Hq q Hc) as ->.
    destruct (Ht i c Hi) as [Hempty _]. specialize (Hempty p Hc).
    injection Hstep as <- <-. apply Hquiet.
    + intros j cj Hne Hj. destruct (holder cj) eqn:Hhj; [|done].
      by destruct Hne; apply (Hu j i cj c).
    + done.
    + intros _. simpl. by rewrite lookup_alter_eq, Hempty.
  - injection Hstep as <- <-. intros j cj Hj. apply (Ht j).
    destruct (decide (j = i)) as [->|Hne].
    + by rewrite list_insert_id in Hj.
    + by rewrite list_lookup_insert_ne in Hj.
Qed.

(** X10: in a race for one placeholder, at every point the
    placeholder holds the text of the claimant that has succeeded:
    [PLACEHOLDER CREATED BY] and the name of its host. *)
Theorem winner_signs_placeholder (P : option string) (cs : list claimant)
    (sched : list nat) (fs : filesystem) :
  (forall c, In c cs ->
     fresh c = true /\ placeholder_path (E := c_env c) idx dst = P) ->
  let w := race idx dst sched fs cs in
  forall i ci, w.2 !! i = Some ci -> succeeded ci = true ->
    exists p, P = Some p /\
              w.1 !! p = Some (placeholder_text (E := c_env ci)).
Proof.
  intros Hcs w i ci Hi Hs.
  assert (Hin : forall i c, cs !! i = Some c -> In c cs).
  { intros j c Hj. apply list_elem_of_In. by eapply list_elem_of_lookup_2. }
  assert (Hinv0 : race_inv idx dst P (fs, cs)).
  { repeat split; simpl.
    - intros j c Hj. by apply Hcs, (Hin j).
    - intros j c Hj Hh.
      destruct (Hcs c (Hin j c Hj)) as [Hf%fresh_not_holder _]. congruence.
    - intros j k cj ck Hj _ Hh.
      destruct (Hcs cj (Hin j cj Hj)) as [Hf%fresh_not_holder _]. congruence. }
  assert (Hinv : race_inv idx dst P w).
  { apply (race_induction idx dst (race_inv idx dst P)); [|done].
    intros. by apply race_step_inv. }
  destruct Hinv as (_ & Hb & _).
  destruct (Hb i ci Hi (holder_of_succeeded ci Hs)) as (p & -> & _ & _).
  exists p. split; [done|].
  assert (Hboth : race_inv idx dst (Some p) w /\ race_text p w).
  { apply (race_induction idx dst
             (fun w => race_inv idx dst (Some p) w /\ race_text p w)).
    - intros w' j [? ?]. split; [by apply race_step_inv|].
      by apply race_step_text.
    - split; [done|]. intros j c Hj. simpl in Hj.
      destruct (Hcs c (Hin j c Hj)) as [Hf _].
      unfold fresh, succeeded in *. destruct (c_pc c); try done. }
  destruct Hboth as [_ Ht]. by apply (Ht i ci Hi).
Qed.
End RaceText.

(** ** The output files *)

Module NameFacts.
Import PyStr PyPath PathFacts NameDefs.

Lemma pretty_N_go_all (P : ascii -> bool) (x : N) (s : string) :
  (forall d, P (pretty_N_char d) = true) ->
  all_chars P s = true -> all_chars P (pretty_N_go x s) = true.
Proof.
  intros HP. revert s. induction (N.lt_wf_0 x) as [x _ IH]; intros s Hs.
  assert (x = 0 \/ 0 < x)%N as [->|?] by lia.
  - by rewrite pretty_N_go_0.
  - rewrite pretty_N_go_step by done. apply IH; [by apply N.div_lt|].
    simpl. by rewrite HP, Hs.
Qed.

Lemma pretty_Z_no_underscore (z : Z) : no_underscore (pretty z) = true.
Proof.
  assert (HN : forall x : N, no_underscore (pretty x) = true).
  { intros x. unfold pretty, pretty_N. case_decide; [done|].
    apply pretty_N_go_all; [|done].
    intros d. unfold pretty_N_char. by repeat case_match. }
  destruct z as [|p|p]; unfold pretty, pretty_Z; [done|apply HN|].
  unfold no_underscore. rewrite all_chars_app. simpl. apply HN.
Qed.

(** Two texts without underscore that are followed by one are equal
    when the whole strings are. *)
Lemma split_at_underscore (a b x y : string) :
  no_underscore a = true -> no_underscore b = true ->
  a +:+ String "_" x = b +:+ String "_" y -> a = b /\ x = y.
Proof.
  unfold no_underscore. revert b.
  induction a as [|c a IH]; intros [|d b] Ha Hb H; simpl in *.
  - by injection H.
  - change (String "_" x = String d (b +:+ String "_" y)) in H.
    injection H as <- _. done.
  - change (String c (a +:+ String "_" x) = String "_" y) in H.
    injection H as -> _. done.
  - change (String c (a +:+ String "_" x) = String d (b +:+ String "_" y)) in H.
    injection H as -> H.
    apply andb_true_iff in Ha as [_ Ha]. apply andb_true_iff in Hb as [_ Hb].
    destruct (IH b Ha Hb H) as [-> ->]. done.
Qed.

Lemma flow_name_inj (pre ext : string) (a b a' b' : Z) :
  pre +:+ pretty a +:+ "_" +:+ pretty b +:+ ext
  = pre +:+ pretty a' +:+ "_" +:+ pretty b' +:+ ext ->
  a = a'.
Proof.
  intros H%String.app_inj.
  apply split_at_underscore in H as [H _];
    [|apply pretty_Z_no_underscore..].
  by apply (inj pretty).
Qed.

(** X11: the names of the output files never collide: each of the
    forward, backward and reliability paths determines its index, and
    paths of different kinds differ for all indices. *)
Theorem outputs_never_collide (i j : Z) (dst : Path) :
  (forward_path i dst = forward_path j dst -> i = j) /\
  (backward_path i dst = backward_path j dst -> i = j) /\
  (reliable_path i dst = reliable_path j dst -> i = j) /\
  forward_path i dst <> backward_path j dst /\
  forward_path i dst <> reliable_path j dst /\
  backward_path i dst <> reliable_path j dst.
Proof.
  repeat split.
  - intros H%str_truediv_inj; [|apply forward_simple..].
    by apply flow_name_inj in H.
  - intros H%str_truediv_inj; [|apply backward_simple..].
    apply flow_name_inj in H. lia.
  - intros H%str_truediv_inj; [|apply reliable_simple..].
    apply flow_name_inj in H. lia.
  - intros H%str_truediv_inj; [|apply forward_simple|apply backward_simple].
    discriminate H.
  - intros H%str_truediv_inj; [|apply forward_simple|apply reliable_simple].
    discriminate H.
  - intros H%str_truediv_inj; [|apply backward_simple|apply reliable_simple].
    discriminate H.
Qed.
End NameFacts.

Module NumpyFacts.
Import Numpy NumpyDefs.

Lemma byte_value_of_Z (z : Z) : byte_value (byte_of_Z z) = z mod 256.
Proof.
  unfold byte_value, byte_of_Z.
  change 255 with (Z.ones 8). rewrite Z.land_ones by lia.
  change (2 ^ 8) with 256.
  pose proof (Z.mod_pos_bound z 256 ltac:(lia)).
  destruct (Byte.of_N (Z.to_N (z mod 256))) as [b|] eqn:Hb.
  - apply Byte.to_of_N in Hb. rewrite Hb. lia.
  - apply Byte.of_N_None_iff in Hb. lia.
Qed.

Lemma word32_value_bytes (bo : byteorder) (w : Z) :
  0 <= w < 2 ^ 32 -> word32_value bo (word32_bytes bo w) = Some w.
Proof.
  intros Hw. unfold word32_value, word32_bytes.
  assert (Hle : word32_value LittleEndian (word32_bytes LittleEndian w) = Some w).
  { unfold word32_value, word32_bytes.
    rewrite !Z.shiftr_div_pow2 by lia.
    rewrite !byte_value_of_Z. f_equal.
    change (2 ^ 8) with 256. change (2 ^ 16) with (256 * 256).
    change (2 ^ 24) with (256 * 256 * 256).
    change (2 ^ 32) with 4294967296 in Hw.
    rewrite <- !Z.div_div by lia.
    pose proof (Z.div_mod w 256 ltac:(lia)).
    pose proof (Z.div_mod (w / 256) 256 ltac:(lia)).
    pose proof (Z.div_mod (w / 256 / 256) 256 ltac:(lia)).
    assert (w / 256 / 256 / 256 < 256).
    { apply Z.div_lt_upper_bound; [lia|]. apply Z.div_lt_upper_bound; [lia|].
      apply Z.div_lt_upper_bound; lia. }
    assert (0 <= w / 256 / 256 / 256) by (repeat apply Z.div_pos; lia).
    rewrite (Z.mod_small (w / 256 / 256 / 256)) by lia. lia. }
  destruct bo; [exact Hle|]. by rewrite rev_involutive.
Qed.

Lemma word32_bytes_inj (bo : byteorder) (a b : Z) :
  0 <= a < 2 ^ 32 -> 0 <= b < 2 ^ 32 ->
  word32_bytes bo a = word32_bytes bo b -> a = b.
Proof.
  intros Ha Hb H. apply (f_equal (word32_value bo)) in H.
  rewrite !word32_value_bytes in H by done. by injection H.
Qed.

Lemma digits2_bounds (m : positive) :
  2 ^ (Z.pos (digits2_pos m) - 1) <= Z.pos m < 2 ^ Z.pos (digits2_pos m).
Proof.
  induction m as [m IH|m IH|]; simpl digits2_pos; [| |by compute].
  - rewrite Pos2Z.inj_succ.
    replace (Z.succ (Z.pos (digits2_pos m)) - 1) with
      (Z.succ (Z.pos (digits2_pos m) - 1)) by lia.
    rewrite !Z.pow_succ_r by lia. lia.
  - rewrite Pos2Z.inj_succ.
    replace (Z.succ (Z.pos (digits2_pos m)) - 1) with
      (Z.succ (Z.pos (digits2_pos m) - 1)) by lia.
    rewrite !Z.pow_succ_r by lia. lia.
Qed.

(** The mantissa and the exponent of a finite binary32 value. *)
Lemma binary32_finite (s : bool) (m : positive) (e : Z) :
  binary32 (S754_finite s m e) = true ->
  Z.pos m < 2 ^ 24 /\ -149 <= e <= 104 /\ (Z.pos m < 2 ^ 23 -> e = -149).
Proof.
  unfold binary32, valid_binary, bounded, canonical_mantissa, fexp, emin.
  intros [Hc He]%andb_true_iff.
  apply Z.eqb_eq in Hc. apply Z.leb_le in He.
  change (IntDef.Z.max) with Z.max in Hc.
  pose proof (digits2_bounds m) as [Hlo Hhi].
  set (d := Z.pos (digits2_pos m)) in *.
  assert (0 < d) by (unfold d; lia).
  assert (Hd : d <= 24 /\ -149 <= e /\ (d < 24 -> e = -149)) by lia.
  destruct Hd as (Hd & He' & Hsub).
  split; [|split; [lia|]].
  - eapply Z.lt_le_trans; [exact Hhi|]. by apply Z.pow_le_mono_r.
  - intros Hm. apply Hsub.
    destruct (Z.lt_ge_cases d 24) as [|Hge]; [done|].
    assert (d = 24) as Hd24 by lia. rewrite Hd24 in Hlo.
    change (2 ^ (24 - 1)) with (2 ^ 23) in Hlo. lia.
Qed.

(** Two binary32 values with the same encoding are equal. *)
Lemma float32_bits_inj (x y : spec_float) :
  binary32 x = true -> binary32 y = true ->
  float32_bits x = float32_bits y -> x = y.
Proof.
  intros Hx Hy. unfold float32_bits.
  change (2 ^ 31) with 2147483648. change (2 ^ 23) with 8388608.
  change (2 ^ 22) with 4194304.
  destruct x as [sx|sx| |sx mx ex], y as [sy|sy| |sy my ey];
    try (apply binary32_finite in Hx as (Hx1 & Hx2 & Hx3));
    try (apply binary32_finite in Hy as (Hy1 & Hy2 & Hy3));
    change (2 ^ 24) with 16777216 in *; change (2 ^ 23) with 8388608 in *;
    try destruct sx; try destruct sy;
    repeat match goal with
           | |- context [(8388608 <=? ?z)] => destruct (Z.leb_spec 8388608 z)
           end;
    intros Hbits; try (exfalso; lia); try reflexivity.
  all: assert (ex = ey /\ Z.pos mx = Z.pos my) as [-> [= ->]] by lia;
    reflexivity.
Qed.

Lemma float32_tobytes_inj (bo : byteorder) (l k : list spec_float) :
  Forall (fun x => binary32 x = true) l ->
  Forall (fun x => binary32 x = true) k ->
  float32_tobytes bo l = float32_tobytes bo k -> l = k.
Proof.
  intros Hl. revert k. induction Hl as [|x l Hx Hl IH]; intros k Hk H.
  - destruct k as [|y k]; [done|]. simpl in H.
    by destruct bo.
  - destruct Hk as [|y k Hy Hk]; [by destruct bo|].
    simpl in H. apply app_inj_1 in H as [Hw Hr];
      [|by rewrite !length_word32_bytes].
    f_equal; [|by apply IH].
    apply float32_bits_inj; [done..|].
    assert (Hrange : forall z, binary32 z = true ->
              0 <= float32_bits z < 2 ^ 32).
    { intros z Hz. unfold float32_bits.
      change (2 ^ 31) with 2147483648. change (2 ^ 23) with 8388608.
      change (2 ^ 22) with 4194304. change (2 ^ 32) with 4294967296.
      destruct z as [s|s| |s m e];
        try (apply binary32_finite in Hz as (Hz1 & Hz2 & Hz3));
        change (2 ^ 24) with 16777216 in *; change (2 ^ 23) with 8388608 in *;
        try destruct s;
        repeat match goal with
               | |- context [(8388608 <=? ?z)] => destruct (Z.leb_spec 8388608 z)
               end; lia. }
    apply (word32_bytes_inj bo); auto.
Qed.

Lemma in_ravel (a : ndarray) (v : spec_float) :
  In v (ravel a) ->
  exists y x c, (y < dim0 a)%nat /\ (x < dim1 a)%nat /\ (c < dim2 a)%nat /\
                v = item a y x c.
Proof.
  unfold ravel. intros (y & [_ Hy]%in_seq & Hv)%in_flat_map.
  apply in_flat_map in Hv as (x & [_ Hx]%in_seq & Hv).
  apply in_map_iff in Hv as (c & <- & [_ Hc]%in_seq).
  exists y, x, c. simpl in *. by repeat split.
Qed.

Lemma ravel_binary32 (a : ndarray) :
  binary32_items a -> Forall (fun x => binary32 x = true) (ravel a).
Proof.
  intros Ha. apply List.Forall_forall.
  intros v (y & x & c & Hy & Hx & Hc & ->)%in_ravel. by apply Ha.
Qed.

(** The bytes of a flow file determine the flow. *)
Lemma flo_bytes_inj {E : environment} (f g : ndarray) :
  Z.of_nat (dim0 f) < 2 ^ 32 -> Z.of_nat (dim1 f) < 2 ^ 32 ->
  Z.of_nat (dim0 g) < 2 ^ 32 -> Z.of_nat (dim1 g) < 2 ^ 32 ->
  dim2 f = dim2 g -> binary32_items f -> binary32_items g ->
  flo_bytes f = flo_bytes g ->
  dim0 f = dim0 g /\ dim1 f = dim1 g /\
  forall y x c, (y < dim0 f)%nat -> (x < dim1 f)%nat -> (c < dim2 f)%nat ->
    item f y x c = item g y x c.
Proof.
  intros Hf0 Hf1 Hg0 Hg1 H2 Hvf Hvg. unfold flo_bytes.
  intros H. apply app_inv_head in H.
  apply app_inj_1 in H as [Hw H]; [|by rewrite !length_word32_bytes].
  apply app_inj_1 in H as [Hh H]; [|by rewrite !length_word32_bytes].
  unfold uint32 in *. rewrite !Z.mod_small in Hw, Hh by lia.
  apply word32_bytes_inj in Hw; [|lia..].
  apply word32_bytes_inj in Hh; [|lia..].
  apply float32_tobytes_inj in H; [|by apply ravel_binary32..].
  split; [lia|]. split; [lia|].
  intros y x c Hy Hx Hc.
  pose proof (ravel_lookup f y x c Hy Hx Hc) as Hfl.
  pose proof (ravel_lookup g y x c ltac:(lia) ltac:(lia) ltac:(lia)) as Hgl.
  rewrite H in Hfl.
  replace (dim1 g) with (dim1 f) in Hgl by lia.
  replace (dim2 g) with (dim2 f) in Hgl by lia.
  rewrite Hfl in Hgl. by injection Hgl.
Qed.
End NumpyFacts.

Section FlowFiles.
Import Numpy NumpyDefs NumpyFacts.
Context {E : environment}.

(** X12: the flow file loses nothing.  For flows of binary32 items
    with the same number of channels and dimensions below [2^32], equal
    written files mean equal heights, equal widths and equal items. *)
Theorem write_flow_lossless (fname : string) (f g : ndarray)
    (fs fs' : filesystem) :
  denied fname = false ->
  Z.of_nat (dim0 f) < 2 ^ 32 -> Z.of_nat (dim1 f) < 2 ^ 32 ->
  Z.of_nat (dim0 g) < 2 ^ 32 -> Z.of_nat (dim1 g) < 2 ^ 32 ->
  dim2 f = dim2 g -> binary32_items f -> binary32_items g ->
  (write_flow fname f fs).2 !! fname = (write_flow fname g fs').2 !! fname ->
  dim0 f = dim0 g /\ dim1 f = dim1 g /\
  forall y x c, (y < dim0 f)%nat -> (x < dim1 f)%nat -> (c < dim2 f)%nat ->
    item f y x c = item g y x c.
Proof.
  intros Hd Hf0 Hf1 Hg0 Hg1 H2 Hvf Hvg.
  rewrite !write_flow_cases, Hd. simpl. rewrite !lookup_insert_eq.
  intros [= H]. by apply flo_bytes_inj.
Qed.
End FlowFiles.

(** ** The command line *)

Module GlobFacts.
Import Glob PyStr PyPath.

Lemma str_parse_nonempty (s : string) : PyPath.str (parse s) <> EmptyString.
Proof.
  unfold PyPath.str, parse. simpl.
  destruct (List.filter keep_part (split_slash s)) as [|x l] eqn:Hf.
  - by destruct (starts_with_slash s).
  - assert (Hx : keep_part x = true).
    { assert (In x (List.filter keep_part (split_slash s)))
        by (rewrite Hf; by left).
      by apply filter_In in H as [_ H]. }
    destruct x as [|c x]; [done|].
    destruct (starts_with_slash s); [done|].
    destruct l; done.
Qed.

(** A pattern without [*] and [?] matches itself only. *)
Lemma fnmatchcase_literal (pat name : string) :
  all_chars (fun c => negb (Ascii.eqb c "*" || Ascii.eqb c "?")) pat = true ->
  fnmatchcase name pat = String.eqb name pat.
Proof.
  revert name. induction pat as [|c pat IH]; intros name; [done|].
  simpl all_chars. intros [Hc Hp]%andb_true_iff.
  apply negb_true_iff, orb_false_iff in Hc as [Hs Hq].
  cbn [fnmatchcase]. rewrite Hs, Hq.
  destruct name as [|d name]; [done|].
  cbn [String.eqb orb]. rewrite (Ascii.eqb_sym c d), (IH _ Hp).
  by destruct (Ascii.eqb d c).
Qed.

Lemma star_ppm (name : string) :
  (fix star (s : string) : bool :=
     fnmatchcase s ".ppm" ||
     match s with
     | EmptyString => false
     | String _ r => star r
     end) name = true <->
  exists stem, name = stem +:+ ".ppm".
Proof.
  induction name as [|c name IH].
  - rewrite fnmatchcase_literal by done. split; [done|].
    intros [[|d stem] H]; cbv in H; discriminate H.
  - rewrite orb_true_iff, IH, fnmatchcase_literal by done. split.
    + intros [H|[stem ->]].
      * exists EmptyString. by apply String.eqb_eq in H.
      * by exists (String c stem).
    + intros [[|d stem] H].
      * left. rewrite H. done.
      * right. exists stem. by injection H.
Qed.

Lemma fnmatchcase_ppm (name : string) :
  fnmatchcase name "*.ppm" = true <-> exists stem, name = stem +:+ ".ppm".
Proof. apply star_ppm. Qed.

Lemma length_slice_to {A : Type} (l : list A) (k : Z) :
  0 <= k -> (length (slice_to l k) <= Z.to_nat k)%nat.
Proof.
  intros Hk. unfold slice_to. destruct (Z.ltb_spec k 0); [lia|].
  rewrite length_take. lia.
Qed.

Lemma filter_sublist {A : Type} (P : A -> bool) (l : list A) :
  sublist (List.filter P l) l.
Proof.
  induction l as [|x l IH]; simpl; [done|].
  destruct (P x); by constructor.
Qed.

Lemma slice_to_sublist {A : Type} (l : list A) (k : Z) :
  sublist (slice_to l k) l.
Proof. unfold slice_to. destruct (k <? 0); apply sublist_take. Qed.

End GlobFacts.

Section MainFacts.
Import Glob GlobFacts PyStr PyPath.
Context {E : environment}.
Variable scandir : string -> option (list string).
Variable NUM_FRAMES_FOR_TEST : Z.

Lemma glob1_ppm (d : string) (n : string) :
  d <> EmptyString ->
  In n (glob1 scandir d "*.ppm") <->
  exists l stem, scandir d = Some l /\ In n l /\ _ishidden n = false /\
                 n = stem +:+ ".ppm".
Proof.
  intros Hd. unfold glob1, fnmatch_filter.
  destruct (String.eqb_spec d EmptyString) as [|_]; [done|].
  change (_ishidden "*.ppm") with false. cbv iota.
  rewrite filter_In, filter_In, fnmatchcase_ppm, negb_true_iff.
  split.
  - intros [[Hin Hh] [stem Hs]].
    destruct (scandir d) as [l|]; [|done]. by exists l, stem.
  - intros (l & stem & -> & Hin & Hh & Hs). eauto.
Qed.

(** X13: the frames of [main].  Every frame is a name of the listing
    of the directory that ends in [.ppm] and does not start with a dot
    (so it has a character before the extension); the frames keep the
    order of the listing; and without [--test] every such name of the
    listing is a frame. *)
Theorem main_frames_are_visible_ppm (a : args) :
  let d := PyPath.str (PyPath.parse (args_remote a)) in
  (forall n, In n (main_frames scandir NUM_FRAMES_FOR_TEST a) ->
     exists l c stem, scandir d = Some l /\ In n l /\
       n = String c stem +:+ ".ppm" /\ c <> "."%char) /\
  sublist (main_frames scandir NUM_FRAMES_FOR_TEST a) (default [] (scandir d)) /\
  (args_test a = false ->
   forall l c stem, scandir d = Some l -> In (String c stem +:+ ".ppm") l ->
     c <> "."%char ->
     In (String c stem +:+ ".ppm") (main_frames scandir NUM_FRAMES_FOR_TEST a)).
Proof.
  intros d.
  assert (Hd : d <> EmptyString) by apply str_parse_nonempty.
  assert (Hsub : sublist (main_frames scandir NUM_FRAMES_FOR_TEST a)
                   (glob1 scandir d "*.ppm")).
  { unfold main_frames. fold d. destruct (args_test a); [|done].
    apply slice_to_sublist. }
  split; [|split].
  - intros n Hn.
    assert (Hg : In n (glob1 scandir d "*.ppm")).
    { apply list_elem_of_In. eapply elem_of_sublist; [|exact Hsub].
      by apply list_elem_of_In. }
    apply glob1_ppm in Hg as (l & stem & Hl & Hin & Hh & Hs); [|done].
    destruct n as [|c n']; [by destruct stem|].
    destruct stem as [|c' stem].
    + injection Hs as -> ->. done.
    + injection Hs as <- ->. exists l, c, stem. repeat split; try done.
      intros ->. done.
  - etrans; [exact Hsub|]. unfold glob1, fnmatch_filter.
    destruct (String.eqb_spec d EmptyString) as [|_]; [done|].
    change (_ishidden "*.ppm") with false. cbv iota.
    etrans; apply filter_sublist.
  - intros Ht l c stem Hl Hin Hc. unfold main_frames. rewrite Ht. fold d.
    apply glob1_ppm; [done|]. exists l, (String c stem).
    repeat split; try done. simpl. unfold PyStr.is_dot.
    by destruct (Ascii.eqb_spec c ".").
Qed.

(** X14: with [--test] and a [NUM_FRAMES_FOR_TEST] that is not
    negative, [main] attempts indices from 1 to
    [NUM_FRAMES_FOR_TEST - 1] only, at most [NUM_FRAMES_FOR_TEST - 1]
    of them. *)
Theorem main_test_caps_jobs (a : args) (sched : list event) (fs : filesystem) :
  args_test a = true -> 0 <= NUM_FRAMES_FOR_TEST ->
  let w := main scandir NUM_FRAMES_FOR_TEST a sched fs in
  (forall i, In i (w_attempts w) -> 1 <= i <= NUM_FRAMES_FOR_TEST - 1) /\
  (length (w_attempts w) <= Z.to_nat NUM_FRAMES_FOR_TEST - 1)%nat.
Proof.
  intros Ht Hk w. unfold main in w.
  set (frames := main_frames scandir NUM_FRAMES_FOR_TEST a) in *.
  assert (Hlen : (length frames <= Z.to_nat NUM_FRAMES_FOR_TEST)%nat).
  { unfold frames, main_frames. rewrite Ht. by apply length_slice_to. }
  assert (Htr : trace_inv 0 (length frames) w)
    by apply steps_trace, init_trace.
  destruct (trace_prefix _ _ _ Htr) as [k Hk']. rewrite Hk'. split.
  - intros i Hi.
    assert (Hin : In i (claim_indices 0 (length frames))).
    { apply list_elem_of_In. eapply elem_of_sublist; [|apply sublist_take].
      by apply list_elem_of_In. }
    apply in_claim_indices in Hin. lia.
  - rewrite length_take. unfold claim_indices.
    rewrite length_map, length_seq. lia.
Qed.

(** X15: when the directory cannot be listed, or with [--test] and a
    [NUM_FRAMES_FOR_TEST] of 0 or 1, [main] attempts no claim, starts
    no thread, leaves the files to the other processes, and has
    returned after two moves of the coordinating thread. *)
Theorem main_without_frames (a : args) (sched : list event) (fs : filesystem) :
  scandir (PyPath.str (PyPath.parse (args_remote a))) = None \/
  (args_test a = true /\ 0 <= NUM_FRAMES_FOR_TEST <= 1) ->
  let w := main scandir NUM_FRAMES_FOR_TEST a sched fs in
  w_attempts w = [] /\ w_threads w = [] /\
  w_fs w = elsewhere_only sched fs /\
  ((2 <= coordinator_moves sched)%nat -> w_pc w = Returned).
Proof.
  intros H w. unfold main in w.
  set (frames := main_frames scandir NUM_FRAMES_FOR_TEST a) in *.
  assert (Hlen : (length frames <= 1)%nat).
  { unfold frames, main_frames. destruct H as [H|[Ht Hk]].
    - unfold glob1.
      destruct (String.eqb_spec (PyPath.str (parse (args_remote a))) EmptyString)
        as [Hd|_]; [by apply str_parse_nonempty in Hd|].
      rewrite H. simpl. unfold slice_to.
      destruct (args_test a); [|simpl; lia].
      destruct (NUM_FRAMES_FOR_TEST <? 0); rewrite take_nil; simpl; lia.
    - rewrite Ht.
      pose proof (length_slice_to
        (glob1 scandir (PyPath.str (parse (args_remote a))) "*.ppm")
        NUM_FRAMES_FOR_TEST ltac:(lia)). lia. }
  assert (H0 : idle_at 0 (optflow_init 0 frames fs) 0).
  { repeat split. eexists. split; [|done]. lia. }
  destruct (steps_idle frames (parse (args_remote a)) (args_fast a) 0 sched _ _ H0)
    as [(Ha & Hth & _ & Hpc) Hfs].
  fold (optflow 0 frames (parse (args_remote a)) (args_fast a) sched fs) in *.
  fold w in Ha, Hth, Hpc, Hfs.
  split; [done|]. split; [done|]. split; [done|].
  intros Hm. rewrite Nat.add_0_r in Hpc.
  destruct (coordinator_moves sched) as [|[|m]]; [lia..|done].
Qed.
End MainFacts.

(** ** Examples on the concrete installation *)

Module Examples.
Import PyStr PyPath Numpy Race Demo.


Lemma claim_job_already_claimed_witness :
  claim_job (E := node0) 1 ["a"; "b"] dst claimed_1 = (Ok None, claimed_1).
Proof.
  apply (proj1 (claim_job_already_claimed (E := node0) 1 ["a"; "b"] dst
                  claimed_1 "/shared/video/frame_00001.plc" eq_refl)).
  exists (placeholder_text (E := node1)). apply lookup_insert_eq.
Defined.

Lemma claim_job_ignores_frames_witness :
  (claim_job (E := node0) 1 [] dst two_frames).1
  = (claim_job (E := node0) 1 ["a"; "b"] dst one_frame).1.
Proof.
  apply (proj2 (claim_job_ignores_frames (E := node0) 1 dst [] ["a"; "b"]
                  two_frames)).
  intros p [= <-]. by vm_compute.
Defined.

Lemma write_flow_layout_witness :
  denied (environment := node0) "/shared/video/forward_1_2.flo" = false /\
  (write_flow (E := node0) "/shared/video/forward_1_2.flo" flow_1x2
     stale_flow).2 !! "/shared/video/forward_1_2.flo"
  = Some ["P"; "I"; "E"; "H"; "002"; "000"; "000"; "000";
          "001"; "000"; "000"; "000";
          "000"; "000"; "128"; "?"; "000"; "000"; "000"; "@";
          "000"; "000"; "@"; "@"; "000"; "000"; "128"; "@"]%byte.
Proof.
  split; [done|].
  rewrite (proj1 (write_flow_layout (E := node0)
                    "/shared/video/forward_1_2.flo" flow_1x2 stale_flow
                    eq_refl eq_refl eq_refl eq_refl)).
  simpl. rewrite lookup_insert_eq. by vm_compute.
Defined.

Lemma active_jobs_bounded_witness :
  0 <= MAX_OPTFLOW_JOBS (environment := node0) /\
  Z.of_nat (active (optflow (E := node0) 0 three dst true
                      [Coordinator; Coordinator] two_frames))
    <= MAX_OPTFLOW_JOBS (environment := node0).
Proof.
  split; [done|].
  apply (active_jobs_bounded (E := node0) three dst true 0
           [Coordinator; Coordinator] two_frames).
  done.
Defined.

Lemma demo_claimable (i : Z) :
  0 < i <= 0 + Z.of_nat (length three) - 1 ->
  claimable (E := node0) i dst.
Proof.
  intros Hi. assert (i = 1 \/ i = 2) as [->| ->] by (simpl in Hi; lia);
    eexists; (split; [by vm_compute|]); (split; [done|]);
    (split; eexists; by vm_compute).
Defined.

Lemma claims_in_order_witness :
  1 <= MAX_OPTFLOW_JOBS (environment := node0) /\
  exists sched',
    w_pc (optflow (E := node0) 0 three dst true (some_run ++ sched') two_frames)
    = Returned.
Proof.
  split; [done|].
  apply (claims_in_order (E := node0) three dst true 0 some_run two_frames);
    [done|]. apply demo_claimable.
Defined.

Lemma fewer_than_two_frames_witness :
  (length ["frame_00001.ppm"] < 2)%nat /\
  w_attempts (optflow (E := node0) 5 ["frame_00001.ppm"] dst false
                [Thread 0%nat; Coordinator] one_frame) = [].
Proof.
  split; [simpl; lia|].
  apply (fewer_than_two_frames (E := node0) ["frame_00001.ppm"] dst false 5
           [Thread 0%nat; Coordinator] one_frame).
  simpl. lia.
Defined.

Lemma one_claim_wins_witness :
  two_frames !! plc_1 = None /\
  exists i ci,
    (race 1 dst [0; 1; 1; 0]%nat two_frames racers).2 !! i = Some ci /\
    succeeded ci = true.
Proof.
  split; [by vm_compute|].
  destruct (proj2 (one_claim_wins 1 dst (Some plc_1) racers
                     [0; 1; 1; 0]%nat two_frames
                     ltac:(by intros c [<-|[<-|[]]]; split; vm_compute)))
    as [_ Hone].
  - intros c [<-|[<-|[]]]; exists plc_1;
      (split; [by vm_compute|]); (split; [done|]);
      (split; eexists; by vm_compute).
  - apply (Hone plc_1 eq_refl); [by vm_compute|done|].
    intros [|[|j]] cj; vm_compute; by intros [= <-].
Defined.

Lemma successful_job_outputs_witness :
  (run_job (E := node0) 1 frame_1 frame_2 dst true ppm_frames).2
    !! forward_path 1 dst = None /\
  is_Some ((run_job (E := node0) 1 frame_1 frame_2 dst true ppm_frames).2
             !! backward_path 1 dst) /\
  is_Some ((run_job (E := node0) 1 frame_1 frame_2 dst false ppm_frames).2
             !! reliable_path 1 dst).
Proof.
  destruct (successful_job_outputs (E := node0) 1 frame_1 frame_2 dst true
              ppm_frames
              (run_job (E := node0) 1 frame_1 frame_2 dst true ppm_frames).2
              ltac:(by vm_compute)
              ltac:(by exists ["001"%byte], []; vm_compute))
    as (Hf & Hb & _).
  destruct (successful_job_outputs (E := node0) 1 frame_1 frame_2 dst false
              ppm_frames
              (run_job (E := node0) 1 frame_1 frame_2 dst false ppm_frames).2
              ltac:(by vm_compute)
              ltac:(by exists ["120"%byte], ["001"%byte], [], ["120"%byte],
                              ["001"%byte], [], ["001"%byte], [];
                       vm_compute))
    as (_ & _ & Hr & _).
  by repeat split.
Defined.

Lemma job_failures_witness :
  one_frame !! frame_2 ≫= imdecode (environment := broken) = None /\
  run_job (E := broken) 1 frame_1 frame_2 dst true one_frame
  = (Raise cv2_error, one_frame).
Proof.
  split; [by vm_compute|].
  apply (proj1 (proj2 (job_failures (E := broken) 1 frame_1 frame_2 dst
                         one_frame))).
  right. by vm_compute.
Defined.

(** C5, as stated, fails: the consistency check exits with status 1,
    and [run_job] carries on and returns without raising. *)
Lemma nonzero_exit_is_ignored :
  cp_returncode <$>
    exec (environment := broken)
      (tool (E := broken) (CONSISTENCY_CHECK (environment := broken)))
      [backward_path 1 dst; forward_path 1 dst; reliable_path 1 dst; frame_2]
      []
      (farneback (E := broken) frame_1 frame_2 (forward_path 1 dst)
         (backward_path 1 dst) two_frames).2
  = Some 1 /\
  (run_job (E := broken) 1 frame_1 frame_2 dst true two_frames).1 = Ok tt.
Proof. split; by vm_compute. Qed.



End Examples.

(** ** More examples on the concrete installation *)

Module MoreExamples.
Import PyStr PyPath Numpy NumpyDefs Race Demo Inputs.

Lemma claim_job_effect_witness :
  claim_job (E := node0) 1 three dst two_frames
  = (Ok (Some (frame_1, frame_2)),
     <[plc_1 := placeholder_text (E := node0)]> two_frames) /\
  forall q, is_Some (two_frames !! q) ->
    <[plc_1 := placeholder_text (E := node0)]> two_frames !! q
    = two_frames !! q.
Proof.
  assert (H : claim_job (E := node0) 1 three dst two_frames
              = (Ok (Some (frame_1, frame_2)),
                 <[plc_1 := placeholder_text (E := node0)]> two_frames))
    by (by vm_compute).
  split; [exact H|].
  exact (proj1 (proj2 (claim_job_effect (E := node0) 1 three dst two_frames
                         _ _ H))).
Defined.

Lemma farneback_effect_witness :
  (farneback (E := node0) frame_1 frame_2 (forward_path 1 dst)
     (backward_path 1 dst) two_frames).2 !! frame_1 = two_frames !! frame_1.
Proof.
  apply (proj1 (farneback_effect (E := node0) frame_1 frame_2
                  (forward_path 1 dst) (backward_path 1 dst) two_frames
                  (farneback (E := node0) frame_1 frame_2 (forward_path 1 dst)
                     (backward_path 1 dst) two_frames).2
                  (Ok tt) ltac:(by vm_compute)) frame_1); by vm_compute.
Defined.

Lemma run_job_fast_outputs_witness :
  run_job (E := node0) 1 frame_1 frame_2 dst true two_frames
  = (Ok tt,
     <[reliable_path 1 dst := ["001"%byte]]>
       (<[backward_path 1 dst := flo_bytes (E := node0) still]>
          (delete (forward_path 1 dst) two_frames))).
Proof.
  apply (run_job_fast_outputs (E := node0) 1 frame_1 frame_2 dst two_frames
           pixel pixel still still ["001"%byte] [] 0); by vm_compute.
Defined.

Lemma node0_matcher : matcher_reads_only (E := node0).
Proof. intros a s fs. by exists ["120"%byte], 0. Defined.

Lemma node0_flow : flow_writes_output (E := node0).
Proof. intros a b out s fs. by exists ["001"%byte], [], 0. Defined.

Lemma node0_check : check_writes_output (E := node0).
Proof. intros b f r e fs. by exists ["001"%byte], [], 0. Defined.

Lemma run_job_default_outputs_witness :
  exists fs' : filesystem,
    run_job (E := node0) 1 frame_1 frame_2 dst false one_frame = (Ok tt, fs') /\
    fs' !! forward_path 1 dst = None /\
    is_Some (fs' !! backward_path 1 dst) /\
    is_Some (fs' !! reliable_path 1 dst) /\
    forall q, q <> forward_path 1 dst -> q <> backward_path 1 dst ->
              q <> reliable_path 1 dst -> fs' !! q = one_frame !! q.
Proof.
  apply (run_job_default_outputs (E := node0) 1 frame_1 frame_2 dst one_frame
           node0_matcher node0_flow node0_check).
  done.
Defined.

Lemma optflow_counts_frames_witness :
  optflow (E := node0) 0 three dst true some_run two_frames
  = optflow (E := node0) 0 ["a"; "b"; "c"] dst true some_run two_frames.
Proof.
  apply (optflow_counts_frames (E := node0) dst true 0 three ["a"; "b"; "c"]
           some_run two_frames).
  reflexivity.
Defined.

Lemma claimed_range_is_skipped_witness :
  w_fs (optflow (E := node0) 0 ["a"; "b"] dst true
          [Coordinator; Coordinator; Coordinator] claimed_1) = claimed_1 /\
  w_pc (optflow (E := node0) 0 ["a"; "b"] dst true
          [Coordinator; Coordinator; Coordinator] claimed_1) = Returned.
Proof.
  destruct (claimed_range_is_skipped (E := node0) dst true 0 ["a"; "b"]
              [Coordinator; Coordinator; Coordinator] claimed_1)
    as (Hfs & _ & Hret); [done| |done|].
  - intros i Hi. assert (i = 1) as -> by (simpl in Hi; lia).
    exists plc_1. split; [by vm_compute|]. eexists. by vm_compute.
  - split; [exact Hfs|]. apply Hret. simpl. lia.
Defined.

Lemma raise_is_final_witness :
  w_pc (optflow (E := guest) 0 three dst true
          ([Coordinator] ++ [Coordinator; Thread 0%nat]) two_frames)
  = Raised PermissionError /\
  w_attempts (optflow (E := guest) 0 three dst true
                ([Coordinator] ++ [Coordinator; Thread 0%nat]) two_frames)
  = [1].
Proof.
  destruct (raise_is_final (E := guest) dst true 0 three [Coordinator]
              [Coordinator; Thread 0%nat] two_frames PermissionError
              ltac:(by vm_compute))
    as (Hpc & Hat & _).
  split; [exact Hpc|]. rewrite Hat. by vm_compute.
Defined.

Lemma winner_signs_placeholder_witness :
  (race 1 dst [0; 1; 1; 0]%nat two_frames racers).1 !! plc_1
  = Some (placeholder_text (E := node0)).
Proof.
  destruct (winner_signs_placeholder 1 dst (Some plc_1) racers
              [0; 1; 1; 0]%nat two_frames
              ltac:(by intros c [<-|[<-|[]]]; split; vm_compute)
              0%nat (mk_claimant node0 [] (Done (Ok (Some (frame_1, frame_2)))))
              ltac:(by vm_compute) eq_refl)
    as (p & [= <-] & Hp).
  exact Hp.
Defined.

Lemma flow_1x2_binary32 : binary32_items flow_1x2.
Proof.
  intros [|y] [|[|x]] [|[|c]] Hy Hx Hc; try (simpl in *; lia); by vm_compute.
Defined.

Lemma flow_1x2_padded_binary32 : binary32_items flow_1x2_padded.
Proof.
  intros [|y] [|[|x]] [|[|c]] Hy Hx Hc; try (simpl in *; lia); by vm_compute.
Defined.

Lemma write_flow_lossless_witness :
  item flow_1x2 0 1 1 = item flow_1x2_padded 0 1 1.
Proof.
  apply (proj2 (proj2 (write_flow_lossless (E := node0)
    "/shared/video/forward_1_2.flo" flow_1x2 flow_1x2_padded
    two_frames stale_flow eq_refl
    ltac:(by vm_compute) ltac:(by vm_compute)
    ltac:(by vm_compute) ltac:(by vm_compute) eq_refl
    flow_1x2_binary32 flow_1x2_padded_binary32 ltac:(by vm_compute))));
    simpl; lia.
Defined.

Lemma main_test_caps_jobs_witness :
  (length (w_attempts (main (E := node0) listing 2 test_run some_run
                         two_frames)) <= Z.to_nat 2 - 1)%nat.
Proof.
  exact (proj2 (main_test_caps_jobs (E := node0) listing 2 test_run some_run
                  two_frames eq_refl ltac:(lia))).
Defined.

Lemma main_without_frames_witness :
  w_fs (main (E := node0) unreadable 3 test_run some_run two_frames)
  = elsewhere_only some_run two_frames.
Proof.
  exact (proj1 (proj2 (proj2
    (main_without_frames (E := node0) unreadable 3 test_run some_run
       two_frames ltac:(by left))))).
Defined.

End MoreExamples.
